(** * scikit-criteria: [skcriteria.util] and [skcriteria.madm.closeness]

    A shallow embedding of the two modules and the properties of their
    functions.

    Numbers.  The criteria senses are Python integers ([Z]).  NumPy computes
    on IEEE 754 doubles.  The modules [Util] and [Closeness] take the
    numbers as exact: the entries of the arrays given to [nearest] are
    rationals ([Q]) or NaN, the only non-number the function tests for, and
    the TOPSIS pipeline, which needs square roots, works on real numbers
    ([R]); the one place where the pipeline leaves the numbers, the division
    in the closeness step, returns a [float64] that can be NaN or infinite.
    The module [Binary64] follows the same code on the doubles themselves,
    and the runs on doubles show where rounding, overflow and infinite
    entries make the code behave otherwise than exact numbers would.  The
    theorems on exact numbers state what survives on doubles: where a
    property needs it, a hypothesis keeps the input in the range where no
    operation overflows or underflows, or a factor leaves room for the
    rounding. *)

From Stdlib Require Import List ZArith QArith Qabs Reals String Bool Lia Psatz.
From Stdlib Require Floats.
Import ListNotations.

Set Implicit Arguments.

(** ** Exceptions and fallible computations *)

(** An argument of [str.format]. *)
Inductive pyarg : Type :=
| AInt (z : Z)
| AStr (s : string)
| AArr (a : list Z).

(** Python exceptions, with the message kept as the format string and the
    arguments it is filled with. *)
Inductive exn : Type :=
| ValueError (template : string) (args : list pyarg)
| IndexError (template : string).

Inductive result (A : Type) : Type :=
| Return (a : A)
| Raise (e : exn).

Arguments Return {A} a.
Arguments Raise {A} e.

Definition bind {A B : Type} (c : result A) (k : A -> result B) : result B :=
  match c with
  | Return a => k a
  | Raise e => Raise e
  end.

Notation "x <- c ;; k" := (bind c (fun x => k))
  (at level 61, c at next level, right associativity).

Definition raises {A : Type} (c : result A) : Prop :=
  exists e, c = Raise e.

(** ** skcriteria.util *)

Module Util.

Definition MIN : Z := (-1)%Z.

Definition MAX : Z := 1%Z.

(** *** criteriarr *)

(** [np.unique]: the sorted distinct values of an array. *)
Fixpoint insert_unique (x : Z) (l : list Z) : list Z :=
  match l with
  | [] => [x]
  | y :: l' =>
      if (x <? y)%Z then x :: l
      else if (x =? y)%Z then l
      else y :: insert_unique x l'
  end.

Definition np_unique (a : list Z) : list Z :=
  fold_right insert_unique [] a.

(** A list in strictly increasing order, as [np.unique] returns it. *)
Inductive increasing : list Z -> Prop :=
| inc_nil : increasing []
| inc_cons x l : (forall y, In y l -> (x < y)%Z) -> increasing l -> increasing (x :: l).

Definition np_in1d (x : Z) (a : list Z) : bool :=
  existsb (Z.eqb x) a.

(** [np.setdiff1d(ar1, ar2)]: the sorted distinct values of [ar1] that are
    not in [ar2]. *)
Definition np_setdiff1d (ar1 ar2 : list Z) : list Z :=
  filter (fun x => negb (np_in1d x ar2)) (np_unique ar1).

Definition ambiguous_truth : string :=
  "The truth value of an array with more than one element is ambiguous. Use a.any() or a.all()".

(** [bool(a)] for an array: an empty array is false, a one-element array has
    the truth value of its element, a longer one raises. *)
Definition ndarray_bool (a : list Z) : result bool :=
  match a with
  | [] => Return false
  | [x] => Return (negb (x =? 0)%Z)
  | _ :: _ :: _ => Raise (ValueError ambiguous_truth [])
  end.

Definition criteria_msg : string :=
  "Criteria Array only accept '{}' or '{}' Values. Found {}".

Definition criteriarr (criteria : list Z) : result (list Z) :=
  found <- ndarray_bool (np_setdiff1d criteria [MIN; MAX]) ;;
  if found
  then Raise (ValueError criteria_msg [AInt MAX; AInt MIN; AArr criteria])
  else Return criteria.

(** *** is_mtx *)

(** A NumPy array: its shape and its entries in row-major order. *)
Record ndarray (A : Type) : Type := mk_ndarray {
  shape : list nat;
  data : list A
}.

(** [a, b = t]: unpacking a tuple into two names. *)
Definition unpack2 (t : list nat) : result (nat * nat) :=
  match t with
  | [a; b] => Return (a, b)
  | [] | [_] => Raise (ValueError "not enough values to unpack" [])
  | _ :: _ :: _ :: _ => Raise (ValueError "too many values to unpack" [])
  end.

(** The truth value of the [size] argument: [None] and the empty tuple are
    false, any other tuple is true. *)
Definition size_truth (size : option (list nat)) : bool :=
  match size with
  | None => false
  | Some [] => false
  | Some (_ :: _) => true
  end.

(** [(a, b) != size]. *)
Definition tuple_neq (ab : nat * nat) (size : option (list nat)) : bool :=
  match size with
  | None => true
  | Some t => negb (if list_eq_dec Nat.eq_dec [fst ab; snd ab] t then true else false)
  end.

Section IsMtx.

(** The candidate is any Python object; what [np.asarray] makes of it is
    NumPy's business and is left open. *)
Variable object : Type.
Variable A : Type.
Variable np_asarray : object -> result (ndarray A).

(** The body of the [try] block: [Some b] when it executes [return b],
    [None] when it runs to its end. *)
Definition is_mtx_try (mtx : object) (size : option (list nat)) : result (option bool) :=
  mtx <- np_asarray mtx ;;
  ab <- unpack2 (shape mtx) ;;
  if size_truth size && tuple_neq ab size
  then Return (Some false)
  else Return None.

Definition is_mtx (mtx : object) (size : option (list nat)) : bool :=
  match is_mtx_try mtx size with
  | Raise _ => false
  | Return (Some b) => b
  | Return None => true
  end.

End IsMtx.

(** [np.asarray] on a list of lists of integers: a rectangular one becomes a
    2-D array, a ragged one a 1-D array of list objects (the objects are not
    kept). *)
Definition asarray_rows (rows : list (list Z)) : result (ndarray Z) :=
  match rows with
  | [] => Return (mk_ndarray [0%nat] [])
  | r :: rs =>
      if forallb (fun r' => Nat.eqb (List.length r') (List.length r)) rs
      then Return (mk_ndarray [List.length rows; List.length r] (List.concat rows))
      else Return (mk_ndarray [List.length rows] [])
  end.

(** *** nearest *)

(** An entry of the array: NaN or a number. *)
Inductive elem : Type :=
| NaN
| Num (q : Q).

Definition np_isnan (x : elem) : bool :=
  match x with
  | NaN => true
  | Num _ => false
  end.

(** [raveled[~np.isnan(raveled)]]: the entries that are numbers, in order. *)
Fixpoint drop_nan (raveled : list elem) : list Q :=
  match raveled with
  | [] => []
  | NaN :: l => drop_nan l
  | Num q :: l => q :: drop_nan l
  end.

(** An entry of a masked array once it is filled: the fill value of
    [argmin] is plus infinity and that of [argmax] minus infinity. *)
Inductive filled : Type :=
| PInf
| NInf
| Val (q : Q).

Definition Qltb (a b : Q) : bool := negb (Qle_bool b a).

Definition filled_ltb (a b : filled) : bool :=
  match a, b with
  | NInf, NInf => false
  | NInf, _ => true
  | _, NInf => false
  | PInf, _ => false
  | Val _, PInf => true
  | Val x, Val y => Qltb x y
  end.

(** The scan of [argmin]: the index of the first least entry. *)
Fixpoint argmin_from {T : Type} (ltb : T -> T -> bool)
    (best : T) (besti i : nat) (l : list T) : nat :=
  match l with
  | [] => besti
  | x :: l' =>
      if ltb x best
      then argmin_from ltb x i (S i) l'
      else argmin_from ltb best besti (S i) l'
  end.

Definition arg_first {T : Type} (name : string) (ltb : T -> T -> bool) (l : list T) : result nat :=
  match l with
  | [] => Raise (ValueError name [])
  | x :: l' => Return (argmin_from ltb x 0%nat 1%nat l')
  end.

Definition np_argmin (l : list Q) : result nat :=
  arg_first "attempt to get argmin of an empty sequence" Qltb l.

(** [np.ma.masked_array(diff, mask)]. *)
Definition masked_array (diff : list Q) (mask : list bool) : list (Q * bool) :=
  combine diff mask.

Definition ma_filled (fill : filled) (m : list (Q * bool)) : list filled :=
  map (fun dm : Q * bool => if snd dm then fill else Val (fst dm)) m.

(** [MaskedArray.argmin]: the masked entries are filled with plus infinity. *)
Definition ma_argmin (m : list (Q * bool)) : result nat :=
  arg_first "attempt to get argmin of an empty sequence" filled_ltb (ma_filled PInf m).

(** [MaskedArray.argmax]: the masked entries are filled with minus
    infinity. *)
Definition ma_argmax (m : list (Q * bool)) : result nat :=
  arg_first "attempt to get argmax of an empty sequence"
    (fun a b => filled_ltb b a) (ma_filled NInf m).

Definition getitem {T : Type} (l : list T) (idx : nat) : result T :=
  match nth_error l idx with
  | Some x => Return x
  | None => Raise (IndexError "index out of bounds")
  end.

Definition side_allowed (side : option string) : bool :=
  match side with
  | None => true
  | Some s => String.eqb s "gt" || String.eqb s "lt"
  end.

Definition side_msg : string :=
  "'side' must be None, 'gt' or 'lt'. Found {}".

Definition side_arg (side : option string) : pyarg :=
  match side with
  | None => AStr "None"
  | Some s => AStr s
  end.

(** The result is [Some x] for an entry [x] and [None] for Python's
    [None]. *)
Definition nearest (array : ndarray elem) (value : Q) (side : option string)
  : result (option Q) :=
  if negb (side_allowed side)
  then Raise (ValueError side_msg [side_arg side])
  else
    let raveled := data array in
    let cleaned := drop_nan raveled in
    match side with
    | None =>
        idx <- np_argmin (map (fun x => Qabs (x - value)) cleaned) ;;
        x <- getitem cleaned idx ;;
        Return (Some x)
    | Some s =>
        let masker := if String.eqb s "gt"
                      then (fun d => Qle_bool d 0)
                      else (fun d => Qle_bool 0 d) in
        let decisor := if String.eqb s "gt" then ma_argmin else ma_argmax in
        let diff := map (fun x => x - value) cleaned in
        let mask := map masker diff in
        if forallb (fun b => b) mask
        then Return None
        else
          idx <- decisor (masked_array diff mask) ;;
          x <- getitem cleaned idx ;;
          Return (Some x)
    end.

(** *** The doubles behind the numbers

    The entries and the target are doubles, and [cleaned - value] is rounded
    to a double.  A difference whose magnitude is below [overflow_threshold],
    [2^1024 - 2^970], rounds to a finite double, and the rounding moves a
    difference by at most one part in [2^53], so that of two differences the
    one that is the smaller once rounded is at most [rounding_slack],
    [1 + 2^-51], times the other. *)
Definition overflow_threshold : Q := inject_Z (2 ^ 1024 - 2 ^ 970).

Definition rounding_slack : Q := 1 + (1 # 2251799813685248).

(** *** iter_equal *)

(** The operands of [iter_equal]: a Python float or a one-dimensional
    NumPy array. *)
Inductive pyvalue : Type :=
| PyFloat (x : elem)
| PyArray (a : list elem).

Definition is_ndarray (v : pyvalue) : bool :=
  match v with
  | PyFloat _ => false
  | PyArray _ => true
  end.

(** [np.asarray]: a float becomes an array with the one entry. *)
Definition as_entries (v : pyvalue) : list elem :=
  match v with
  | PyFloat x => [x]
  | PyArray a => a
  end.

(** The default tolerances of [np.allclose]. *)
Definition rtol : Q := 1 # 100000.

Definition atol : Q := 1 # 100000000.

(** [np.isclose(x, y, equal_nan=True)] on one pair of entries: two NaN are
    close, a NaN and a number are not, and two numbers are close when
    [|x - y| <= atol + rtol * |y|]. *)
Definition isclose (x y : elem) : bool :=
  match x, y with
  | NaN, NaN => true
  | Num a, Num b => Qle_bool (Qabs (a - b)) (atol + rtol * Qabs b)
  | _, _ => false
  end.

(** Broadcasting two one-dimensional arrays: equal lengths pair up entry by
    entry, an array with one entry is repeated along the other, anything else
    fails. *)
Definition broadcast (a b : list elem) : result (list (elem * elem)) :=
  if Nat.eqb (List.length a) (List.length b) then Return (combine a b)
  else match a, b with
       | [x], _ => Return (map (fun y => (x, y)) b)
       | _, [y] => Return (map (fun x => (x, y)) a)
       | _, _ => Raise (ValueError "operands could not be broadcast together" [])
       end.

(** [np.allclose(a, b, equal_nan=True)]. *)
Definition np_allclose (a b : list elem) : result bool :=
  pairs <- broadcast a b ;;
  Return (forallb (fun p => isclose (fst p) (snd p)) pairs).

(** [a == b] on two Python floats. *)
Definition float_eq (x y : elem) : bool :=
  match x, y with
  | Num a, Num b => Qeq_bool a b
  | _, _ => false
  end.

(** Two operands that are not arrays are two floats; the last case of the
    match does not arise. *)
Definition iter_equal (a b : pyvalue) : result bool :=
  if is_ndarray a || is_ndarray b
  then np_allclose (as_entries a) (as_entries b)
  else match a, b with
       | PyFloat x, PyFloat y => Return (float_eq x y)
       | _, _ => np_allclose (as_entries a) (as_entries b)
       end.

End Util.

(** ** skcriteria.madm.closeness *)

Module Closeness.

Import Util.

Local Open Scope R_scope.

(** The value of a floating-point division.  Dividing by zero does not
    raise in NumPy: it gives NaN for [0 / 0] and an infinity otherwise. *)
Inductive float64 : Type :=
| f_nan
| f_inf (negative : bool)
| f_fin (x : R).

Definition np_true_divide (a b : R) : float64 :=
  if Req_dec_T b 0
  then if Req_dec_T a 0
       then f_nan
       else f_inf (if Rlt_dec a 0 then true else false)
  else f_fin (a / b).

(** Element-wise application of a binary operation to two arrays of the
    same length. *)
Fixpoint map2 {A B C : Type} (f : A -> B -> C) (a : list A) (b : list B) : list C :=
  match a, b with
  | x :: a', y :: b' => f x y :: map2 f a' b'
  | _, _ => []
  end.

(** [np.multiply(nmtx, nweights)]: every row is multiplied entry by entry by
    the weights. *)
Definition np_multiply (nmtx : list (list R)) (nweights : list R) : list (list R) :=
  map (fun row => map2 Rmult row nweights) nmtx.

Definition zero_size (name : string) : exn :=
  ValueError "zero-size array to reduction operation {} which has no identity" [AStr name].

(** [np.min(wmtx, axis=0)]: the least entry of every column; a matrix with
    no row has no least entry. *)
Definition np_min_axis0 (wmtx : list (list R)) : result (list R) :=
  match wmtx with
  | [] => Raise (zero_size "minimum")
  | row :: rows => Return (fold_left (map2 Rmin) rows row)
  end.

Definition np_max_axis0 (wmtx : list (list R)) : result (list R) :=
  match wmtx with
  | [] => Raise (zero_size "maximum")
  | row :: rows => Return (fold_left (map2 Rmax) rows row)
  end.

(** [ncriteria == sense]. *)
Definition np_equal (ncriteria : list Z) (sense : Z) : list bool :=
  map (fun c => Z.eqb c sense) ncriteria.

(** [np.where(cond, x, y)]. *)
Fixpoint np_where (cond : list bool) (x y : list R) : list R :=
  match cond, x, y with
  | c :: cond', a :: x', b :: y' => (if c then a else b) :: np_where cond' x' y'
  | _, _, _ => []
  end.

Definition np_sum (a : list R) : R := fold_right Rplus 0 a.

(** The entries of [np.power(row - point, 2)]. *)
Definition squares (point row : list R) : list R :=
  map (fun d => d ^ 2) (map2 Rminus row point).

Definition distance (point row : list R) : R :=
  sqrt (np_sum (squares point row)).

(** [np.sqrt(np.sum(np.power(wmtx - point, 2), axis=1))]: the Euclidean
    distance of every row to the point. *)
Definition distances (wmtx : list (list R)) (point : list R) : list R :=
  map (distance point) wmtx.

Definition ideal_point (ncriteria : list Z) (mins maxs : list R) : list R :=
  np_where (np_equal ncriteria MAX) maxs mins.

Definition anti_ideal_point (ncriteria : list Z) (mins maxs : list R) : list R :=
  np_where (np_equal ncriteria MIN) maxs mins.

(** [d_worst / (d_better + d_worst)]. *)
Definition relative_closeness (d_better d_worst : list R) : list float64 :=
  map2 np_true_divide d_worst (map2 Rplus d_better d_worst).

(** The values [topsis] computes on its way, for a matrix with at least one
    row. *)
Record trace : Type := mk_trace {
  t_wmtx : list (list R);
  t_mins : list R;
  t_maxs : list R;
  t_ideal : list R;
  t_anti_ideal : list R;
  t_d_better : list R;
  t_d_worst : list R;
  t_closeness : list float64
}.

Definition topsis_trace (nmtx : list (list R)) (ncriteria : list Z) (nweights : list R)
  : result trace :=
  let wmtx := np_multiply nmtx nweights in
  mins <- np_min_axis0 wmtx ;;
  maxs <- np_max_axis0 wmtx ;;
  let ideal := ideal_point ncriteria mins maxs in
  let anti_ideal := anti_ideal_point ncriteria mins maxs in
  let d_better := distances wmtx ideal in
  let d_worst := distances wmtx anti_ideal in
  let closeness := relative_closeness d_better d_worst in
  Return (mk_trace wmtx mins maxs ideal anti_ideal d_better d_worst closeness).

(** The normalized data [TOPSIS.solve] receives. *)
Record Data : Type := mk_Data {
  mtx : list (list R);
  criteria : list Z;
  weights : list R
}.

Section Ranking.

(** [rank.rankdata(arr, reverse)] lives in a module of the package that is
    not part of the two modules embedded here; it is a parameter of the
    ranking functions. *)
Variable rankdata : list float64 -> bool -> list Z.

Definition topsis (nmtx : list (list R)) (ncriteria : list Z) (nweights : list R)
  : result (list Z * list float64) :=
  t <- topsis_trace nmtx ncriteria nweights ;;
  Return (rankdata (t_closeness t) true, t_closeness t).

(** [TOPSIS.solve]: the returned tuple, position by position. *)
Definition solve (ndata : Data)
  : result (option (list Z) * option (list Z) * list (string * list float64)) :=
  rc <- topsis (mtx ndata) (criteria ndata) (weights ndata) ;;
  Return (None, Some (fst rc), [("closeness"%string, snd rc)]).

End Ranking.

(** The closeness of one row, given the two points. *)
Definition closeness_row (ideal anti_ideal row : list R) : float64 :=
  np_true_divide (distance anti_ideal row)
                 (distance ideal row + distance anti_ideal row).

(** The closeness of a row when it is a number. *)
Definition closeness_value (ideal anti_ideal row : list R) : R :=
  distance anti_ideal row / (distance ideal row + distance anti_ideal row).

(** *** Changing one entry of the matrix *)

Fixpoint set_nth {A : Type} (l : list A) (i : nat) (x : A) : list A :=
  match l, i with
  | [], _ => []
  | _ :: l', O => x :: l'
  | y :: l', S i' => y :: set_nth l' i' x
  end.

(** [nmtx[i][j]]. *)
Definition entry (nmtx : list (list R)) (i j : nat) : option R :=
  match nth_error nmtx i with
  | Some row => nth_error row j
  | None => None
  end.

(** The matrix with [x] in place of [nmtx[i][j]] and every other entry as it
    is. *)
Definition set_entry (nmtx : list (list R)) (i j : nat) (x : R) : list (list R) :=
  match nth_error nmtx i with
  | Some row => set_nth nmtx i (set_nth row j x)
  | None => nmtx
  end.

(** [a] is the extreme value of column [j] of the matrix for the order
    [le]: it is related to every entry of the column and it is one of
    them. *)
Definition column_extreme (le : R -> R -> Prop) (wmtx : list (list R)) (j : nat) (a : R) : Prop :=
  (forall row, In row wmtx -> exists u, nth_error row j = Some u /\ le a u) /\
  (exists row, In row wmtx /\ nth_error row j = Some a).

Definition column_min : list (list R) -> nat -> R -> Prop :=
  column_extreme Rle.

Definition column_max : list (list R) -> nat -> R -> Prop :=
  column_extreme Rge.

(** The shapes of a normalized triple: every row of the matrix, the criteria
    and the weights have the same length. *)
Definition same_shape (nmtx : list (list R)) (ncriteria : list Z) (nweights : list R) : Prop :=
  Forall (fun row => List.length row = List.length nweights) nmtx /\
  List.length ncriteria = List.length nweights.

(** *** The range in which doubles behave

    The numbers of an input are doubles.  The hypotheses built from the
    definitions below keep them away from overflow and underflow: a number
    is bounded when its magnitude is at most [2^100], and moderate when in
    addition it is zero or its magnitude is at least [2^-100]; the number of
    criteria is at most [2^20]. *)
Definition range_bound : R := IZR (2 ^ 100).

Definition bounded (x : R) : Prop := Rabs x <= range_bound.

Definition moderate (x : R) : Prop :=
  x = 0 \/ / range_bound <= Rabs x <= range_bound.

Definition bounded_input (nmtx : list (list R)) (nweights : list R) : Prop :=
  Forall (Forall bounded) nmtx /\ Forall bounded nweights /\
  (Z.of_nat (List.length nweights) <= 2 ^ 20)%Z.

Definition moderate_input (nmtx : list (list R)) (nweights : list R) : Prop :=
  Forall (Forall moderate) nmtx /\ Forall moderate nweights /\
  (Z.of_nat (List.length nweights) <= 2 ^ 20)%Z.

(** The relative error that the rounding of the sum and of the division of
    the closeness step can add up to, [2^-50]. *)
Definition rounding_error : R := / IZR (2 ^ 50).

End Closeness.

(** ** skcriteria.rank *)

Module Rank.

Import Closeness.

Local Open Scope R_scope.

Definition Rltb (x y : R) : bool := if Rlt_dec x y then true else false.

Definition Rleb (x y : R) : bool := if Rle_dec x y then true else false.

(** [x < y] on floating-point values: false as soon as one side is NaN. *)
Definition float_ltb (x y : float64) : bool :=
  match x, y with
  | f_nan, _ | _, f_nan => false
  | f_inf true, f_inf true => false
  | f_inf true, _ => true
  | _, f_inf true => false
  | f_inf false, _ => false
  | f_fin _, f_inf false => true
  | f_fin a, f_fin b => Rltb a b
  end.

Definition count {A : Type} (p : A -> bool) (l : list A) : nat :=
  List.length (filter p l).

(** Modelled from the spec: [rank.rankdata], the ranking utility of the
    package, is not among the embedded modules.  The specification asks for
    ranks that start at 1 and, in descending order, give rank 1 to the
    highest score; tied scores share a rank.  Here the rank of a score is one
    more than the number of scores that come strictly before it in the
    requested order. *)
Definition rankdata (arr : list float64) (reverse : bool) : list Z :=
  map (fun x =>
         (1 + Z.of_nat (count (fun y => if reverse then float_ltb x y else float_ltb y x) arr))%Z)
      arr.

(** What the ranking functions below rely on, whatever the ranking utility
    does with ties: in descending order it returns one rank per score, every
    rank lies between 1 and the number of scores, and when all scores are
    numbers the rank of a score is greater than the number of scores
    strictly above it and at most the number of scores at least as high. *)
Definition descending_ranks (rankdata : list float64 -> bool -> list Z) : Prop :=
  (forall scores, List.length (rankdata scores true) = List.length scores) /\
  (forall scores i r,
     nth_error (rankdata scores true) i = Some r ->
     (1 <= r <= Z.of_nat (List.length scores))%Z) /\
  (forall xs i x r,
     nth_error xs i = Some x ->
     nth_error (rankdata (map f_fin xs) true) i = Some r ->
     (Z.of_nat (count (Rltb x) xs) < r <= Z.of_nat (count (Rleb x) xs))%Z).

End Rank.

(** ** The same functions on IEEE 754 doubles

    NumPy computes on binary64 numbers.  The definitions of [Util] and
    [Closeness] take the numbers as exact; the definitions of this module
    follow the same code on the doubles themselves, with their rounding,
    their overflow and their infinite values, so that the code can be run
    on a concrete input.  [np.power(x, 2)] is taken as the correctly rounded
    product [x * x], and [np.sum] adds the entries of a row from left to
    right, as NumPy does for a row of fewer than eight entries. *)

Module Binary64.

Import Util PrimFloat.

Local Open Scope float_scope.

(** *** nearest *)

Definition drop_nan (raveled : list float) : list float :=
  filter (fun x => negb (is_nan x)) raveled.

(** The scan of [argmin] on doubles: an entry replaces the least one so far
    when it is not greater than or equal to it, and a NaN ends the scan. *)
Fixpoint argmin_from (best : float) (besti i : nat) (l : list float) : nat :=
  match l with
  | [] => besti
  | x :: l' =>
      if is_nan best then besti
      else if negb (best <=? x)
           then argmin_from x i (S i) l'
           else argmin_from best besti (S i) l'
  end.

Definition np_argmin (l : list float) : result nat :=
  match l with
  | [] => Raise (ValueError "attempt to get argmin of an empty sequence" [])
  | x :: l' => Return (argmin_from x 0%nat 1%nat l')
  end.

Fixpoint argmax_from (best : float) (besti i : nat) (l : list float) : nat :=
  match l with
  | [] => besti
  | x :: l' =>
      if is_nan best then besti
      else if negb (x <=? best)
           then argmax_from x i (S i) l'
           else argmax_from best besti (S i) l'
  end.

Definition np_argmax (l : list float) : result nat :=
  match l with
  | [] => Raise (ValueError "attempt to get argmax of an empty sequence" [])
  | x :: l' => Return (argmax_from x 0%nat 1%nat l')
  end.

(** [np.ma.masked_array(diff, mask).filled(fill)]. *)
Definition ma_filled (fill : float) (diff : list float) (mask : list bool) : list float :=
  Closeness.map2 (fun (d : float) (m : bool) => if m then fill else d) diff mask.

Definition nearest (array : ndarray float) (value : float) (side : option string)
  : result (option float) :=
  if negb (side_allowed side)
  then Raise (ValueError side_msg [side_arg side])
  else
    let raveled := data array in
    let cleaned := drop_nan raveled in
    match side with
    | None =>
        idx <- np_argmin (map (fun x => abs (x - value)) cleaned) ;;
        x <- getitem cleaned idx ;;
        Return (Some x)
    | Some s =>
        let masker := if String.eqb s "gt"
                      then (fun d => d <=? 0)
                      else (fun d => 0 <=? d) in
        let diff := map (fun x => x - value) cleaned in
        let mask := map masker diff in
        if forallb (fun b => b) mask
        then Return None
        else
          idx <- (if String.eqb s "gt"
                  then np_argmin (ma_filled infinity diff mask)
                  else np_argmax (ma_filled neg_infinity diff mask)) ;;
          x <- getitem cleaned idx ;;
          Return (Some x)
    end.

(** *** topsis *)

Definition np_multiply (nmtx : list (list float)) (nweights : list float)
  : list (list float) :=
  map (fun row => Closeness.map2 mul row nweights) nmtx.

(** [np.minimum] and [np.maximum]: a NaN on either side is the result. *)
Definition np_minimum (a b : float) : float :=
  if is_nan a then a else if a <? b then a else b.

Definition np_maximum (a b : float) : float :=
  if is_nan a then a else if b <? a then a else b.

Definition np_min_axis0 (wmtx : list (list float)) : result (list float) :=
  match wmtx with
  | [] => Raise (Closeness.zero_size "minimum")
  | row :: rows => Return (fold_left (Closeness.map2 np_minimum) rows row)
  end.

Definition np_max_axis0 (wmtx : list (list float)) : result (list float) :=
  match wmtx with
  | [] => Raise (Closeness.zero_size "maximum")
  | row :: rows => Return (fold_left (Closeness.map2 np_maximum) rows row)
  end.

Fixpoint np_where (cond : list bool) (x y : list float) : list float :=
  match cond, x, y with
  | c :: cond', a :: x', b :: y' => (if c then a else b) :: np_where cond' x' y'
  | _, _, _ => []
  end.

Definition np_sum (a : list float) : float :=
  match a with
  | [] => 0
  | x :: a' => fold_left add a' x
  end.

(** [np.sqrt(np.sum(np.power(row - point, 2)))]. *)
Definition distance (point row : list float) : float :=
  sqrt (np_sum (map (fun d => d * d) (Closeness.map2 sub row point))).

Record trace : Type := mk_trace {
  t_d_better : list float;
  t_d_worst : list float;
  t_closeness : list float
}.

Definition topsis_trace (nmtx : list (list float)) (ncriteria : list Z)
    (nweights : list float) : result trace :=
  let wmtx := np_multiply nmtx nweights in
  mins <- np_min_axis0 wmtx ;;
  maxs <- np_max_axis0 wmtx ;;
  let ideal := np_where (Closeness.np_equal ncriteria MAX) maxs mins in
  let anti_ideal := np_where (Closeness.np_equal ncriteria MIN) maxs mins in
  let d_better := map (distance ideal) wmtx in
  let d_worst := map (distance anti_ideal) wmtx in
  let closeness := Closeness.map2 div d_worst (Closeness.map2 add d_better d_worst) in
  Return (mk_trace d_better d_worst closeness).

(** Modelled from the spec: [rank.rankdata] is not among the embedded
    modules.  As in [Rank.rankdata], the rank of a score in descending order
    is one more than the number of scores strictly above it, so that tied
    scores share a rank; a comparison with NaN is false. *)
Definition rankdata (arr : list float) (reverse : bool) : list Z :=
  map (fun x : float =>
         let before := filter (fun y : float => if reverse then x <? y else y <? x) arr in
         Z.succ (Z.of_nat (List.length before)))
      arr.

Definition topsis (nmtx : list (list float)) (ncriteria : list Z) (nweights : list float)
  : result (list Z * list float) :=
  t <- topsis_trace nmtx ncriteria nweights ;;
  Return (rankdata (t_closeness t) true, t_closeness t).

End Binary64.

(** ** The sentences of the specification that the code does not satisfy,
    as they are written *)

Module Stated.

Import Util.

(** The candidate can be coerced into a 2-D array. *)
Definition coerces_2d {object A : Type} (np_asarray : object -> result (ndarray A))
    (candidate : object) : Prop :=
  exists arr a b, np_asarray candidate = Return arr /\ shape arr = [a; b].

(** "Returns false if the candidate cannot be coerced into a 2-D array, or if
    coercion succeeds but the shape differs from the expected shape when one
    is supplied", and true otherwise. *)
Definition is_mtx_stated {object A : Type} (np_asarray : object -> result (ndarray A))
    (candidate : object) (expected_shape : option (list nat)) : Prop :=
  is_mtx np_asarray candidate expected_shape = false <->
  (~ coerces_2d np_asarray candidate \/
   exists arr e, np_asarray candidate = Return arr /\
                 expected_shape = Some e /\ shape arr <> e).

(** [r] is the answer of a search for the entry nearest to [value] among the
    entries that are numbers and lie on the side [inside]: such an entry at
    the least distance, or [None] when there is none. *)
Definition nearest_on_side (inside : Q -> Prop) (array : ndarray elem) (value : Q)
    (r : option Q) : Prop :=
  match r with
  | Some x =>
      In (Num x) (data array) /\ inside x /\
      forall y, In (Num y) (data array) -> inside y ->
                Qabs (x - value) <= Qabs (y - value)
  | None => forall y, In (Num y) (data array) -> ~ inside y
  end.

(** "[side] constrains the search to values >= target (gt) or <= target
    (lt)". *)
Definition nearest_stated (array : ndarray elem) (value : Q) : Prop :=
  (exists r, nearest array value (Some "gt"%string) = Return r /\
             nearest_on_side (fun x => value <= x) array value r) /\
  (exists r, nearest array value (Some "lt"%string) = Return r /\
             nearest_on_side (fun x => x <= value) array value r).

Import Closeness.

(** "Return (kernel=rank_array, rank=None, extra={closeness: closeness})":
    the ranking in the first place of the tuple and [None] in the second. *)
Definition solve_stated (rankdata : list float64 -> bool -> list Z) (ndata : Data) : Prop :=
  exists t,
    topsis_trace (mtx ndata) (criteria ndata) (weights ndata) = Return t /\
    solve rankdata ndata =
    Return (Some (rankdata (t_closeness t) true), None,
            [("closeness"%string, t_closeness t)]).

(** "The degenerate case must be explicitly guarded and either fails or
    defines closeness as a fixed constant": when the two distances of
    alternative [i] add up to zero, [topsis] raises or the closeness of [i]
    is a number. *)
Definition degenerate_guarded (rankdata : list float64 -> bool -> list Z)
    (nmtx : list (list R)) (ncriteria : list Z) (nweights : list R) : Prop :=
  forall t i db dw,
    topsis_trace nmtx ncriteria nweights = Return t ->
    nth_error (t_d_better t) i = Some db ->
    nth_error (t_d_worst t) i = Some dw ->
    (db + dw = 0)%R ->
    raises (topsis rankdata nmtx ncriteria nweights) \/
    exists rank closeness c,
      topsis rankdata nmtx ncriteria nweights = Return (rank, closeness) /\
      nth_error closeness i = Some (f_fin c).

End Stated.

(** * Properties *)

(** ** criteriarr *)

Section CriteriarrFacts.

Import Util.

Lemma bind_return {A B : Type} (c : result A) (k : A -> result B) (b : B) :
  bind c k = Return b -> exists a, c = Return a /\ k a = Return b.
Proof.
  destruct c as [a | e]; simpl; intros H; [ exists a; auto | discriminate ].
Qed.

(** What [criteriarr] does on each kind of input: it accepts the array when
    no value or only the value [0] lies outside the two senses, raises its
    own error for a single non-zero outsider, and fails inside NumPy for
    two or more distinct outsiders. *)
Lemma criteriarr_cases (criteria : list Z) :
  match np_setdiff1d criteria [MIN; MAX] with
  | [] => criteriarr criteria = Return criteria
  | [x] =>
      if (x =? 0)%Z
      then criteriarr criteria = Return criteria
      else criteriarr criteria =
           Raise (ValueError criteria_msg [AInt MAX; AInt MIN; AArr criteria])
  | _ :: _ :: _ => criteriarr criteria = Raise (ValueError ambiguous_truth [])
  end.
Proof.
  unfold criteriarr.
  destruct (np_setdiff1d criteria [MIN; MAX]) as [| x [| y l]]; simpl; auto.
  destruct (x =? 0)%Z; reflexivity.
Qed.

(** C3: on the array [[MAX, 0]] the value [0] lies outside the two senses,
    yet [criteriarr] raises nothing and returns the array. *)
Theorem criteriarr_max_zero_accepted :
  np_setdiff1d [MAX; 0%Z] [MIN; MAX] = [0%Z] /\
  criteriarr [MAX; 0%Z] = Return [MAX; 0%Z].
Proof. split; reflexivity. Qed.

End CriteriarrFacts.

(** ** is_mtx *)

Section IsMtxFacts.

Import Util Stated.

Lemma unpack2_return (t : list nat) (ab : nat * nat) :
  unpack2 t = Return ab <-> t = [fst ab; snd ab].
Proof.
  destruct ab as [a b]; simpl.
  destruct t as [| x [| y [| z t]]]; simpl; split; intros H;
    try discriminate; inversion H; reflexivity.
Qed.

Lemma tuple_neq_false (ab : nat * nat) (size : option (list nat)) :
  tuple_neq ab size = false <-> size = Some [fst ab; snd ab].
Proof.
  unfold tuple_neq; destruct size as [t |]; [| split; discriminate ].
  destruct (list_eq_dec Nat.eq_dec [fst ab; snd ab] t) as [E | N]; simpl.
  - subst t; split; auto.
  - split; [ discriminate | intros H; inversion H; congruence ].
Qed.

(** When [is_mtx] answers true. *)
Lemma is_mtx_true {object A : Type} (np_asarray : object -> result (ndarray A))
    (candidate : object) (size : option (list nat)) :
  is_mtx np_asarray candidate size = true <->
  exists arr a b, np_asarray candidate = Return arr /\ shape arr = [a; b] /\
                  (size_truth size = false \/ size = Some [a; b]).
Proof.
  unfold is_mtx, is_mtx_try.
  destruct (np_asarray candidate) as [arr | e]; simpl.
  2:{ split; [ discriminate | intros (arr & a & b & H & _); discriminate ]. }
  destruct (unpack2 (shape arr)) as [[a b] | e] eqn:U; simpl.
  - apply (unpack2_return _ (a, b)) in U; simpl in U.
    destruct (size_truth size) eqn:T; simpl.
    + destruct (tuple_neq (a, b) size) eqn:N.
      * split; [ discriminate |].
        intros (arr' & a' & b' & H & S & [F | F]); [ discriminate |].
        inversion H; subst arr'. rewrite U in S; inversion S; subst a' b'.
        apply (tuple_neq_false (a, b)) in F. congruence.
      * split; [| reflexivity ]. intros _.
        apply tuple_neq_false in N. exists arr, a, b; auto.
    + split; [| reflexivity ]. intros _. exists arr, a, b; auto.
  - split; [ discriminate |].
    intros (arr' & a & b & H & S & _). inversion H; subst arr'.
    rewrite S in U; discriminate.
Qed.

(** C8, as stated, fails: an expected shape that is the empty tuple counts
    as no expected shape, so a 1 x 1 matrix is accepted against it. *)
Lemma is_mtx_stated_fails_on_empty_shape :
  is_mtx asarray_rows [[1%Z]] (Some []) = true /\
  ~ is_mtx_stated asarray_rows [[1%Z]] (Some []).
Proof.
  split; [ reflexivity |].
  intros [_ H].
  assert (F : is_mtx asarray_rows [[1%Z]] (Some []) = false).
  { apply H. right. exists (mk_ndarray [1%nat; 1%nat] [1%Z]), [].
    split; [ reflexivity | split; [ reflexivity | discriminate ] ]. }
  vm_compute in F. discriminate.
Qed.

(** C8, amended: [is_mtx] is a total boolean function, so it never raises;
    it answers false exactly when the candidate cannot be coerced into a 2-D
    array, or when coercion succeeds and the shape differs from a supplied
    expected shape that is not the empty tuple; it answers true exactly in
    the other case, a 2-D array whose shape is the expected one when an
    expected shape other than the empty tuple is supplied. *)
Theorem is_mtx_amended {object A : Type} (np_asarray : object -> result (ndarray A))
    (candidate : object) (expected_shape : option (list nat)) :
  (is_mtx np_asarray candidate expected_shape = false <->
   (~ coerces_2d np_asarray candidate \/
    exists arr e, np_asarray candidate = Return arr /\
                  expected_shape = Some e /\ e <> [] /\ shape arr <> e)) /\
  (is_mtx np_asarray candidate expected_shape = true <->
   exists arr a b, np_asarray candidate = Return arr /\ shape arr = [a; b] /\
                   (expected_shape = None \/ expected_shape = Some [] \/
                    expected_shape = Some [a; b])).
Proof.
  pose proof (is_mtx_true np_asarray candidate expected_shape) as T.
  split.
  2:{ rewrite T. split; intros (arr & a & b & E & S & C); exists arr, a, b;
        (split; [ exact E | split; [ exact S |] ]).
      - destruct C as [C | C]; [| auto ].
        destruct expected_shape as [[| x e] |]; auto; discriminate.
      - destruct C as [-> | [-> | ->]]; auto. }
  unfold coerces_2d.
  split.
  - intros F.
    destruct (np_asarray candidate) as [arr | e] eqn:E.
    2:{ left. intros (arr & a & b & H & _). discriminate. }
    destruct (shape arr) as [| a [| b [| c t]]] eqn:S;
      try (left; intros (arr' & a' & b' & H & S'); inversion H; subst arr';
           rewrite S in S'; discriminate).
    right.
    destruct expected_shape as [[| x e] |].
    + exfalso. rewrite (proj2 T) in F; [ discriminate |].
      exists arr, a, b; auto.
    + exists arr, (x :: e).
      split; [ reflexivity | split; [ reflexivity | split; [ discriminate |] ] ].
      intros Q. rewrite (proj2 T) in F; [ discriminate |].
      exists arr, a, b. rewrite <- Q, S. auto.
    + exfalso. rewrite (proj2 T) in F; [ discriminate |].
      exists arr, a, b; auto.
  - intros H.
    destruct (is_mtx np_asarray candidate expected_shape) eqn:I; [| reflexivity ].
    exfalso. destruct (proj1 T eq_refl) as (arr & a & b & E & S & C).
    destruct H as [H | (arr' & e & E' & X & N & D)].
    + apply H. exists arr, a, b; auto.
    + rewrite E in E'; inversion E'; subst arr'. subst expected_shape.
      destruct C as [C | C].
      * destruct e; [ congruence | discriminate ].
      * inversion C; subst e. congruence.
Qed.

End IsMtxFacts.

(** ** nearest *)

Section ArgminFacts.

Import Util.

Variable T : Type.
Variable ltb : T -> T -> bool.
Hypothesis ltb_irrefl : forall x, ltb x x = false.
Hypothesis ltb_trans : forall x y z, ltb x y = true -> ltb y z = true -> ltb x z = true.

Lemma argmin_from_least (l pre : list T) (best : T) (besti : nat) :
  nth_error (pre ++ l) besti = Some best ->
  (forall y, In y pre -> ltb y best = false) ->
  exists x,
    nth_error (pre ++ l) (argmin_from ltb best besti (List.length pre) l) = Some x /\
    forall y, In y (pre ++ l) -> ltb y x = false.
Proof.
  revert pre best besti.
  induction l as [| x l IH]; intros pre best besti Hb Hpre; simpl.
  - exists best. rewrite app_nil_r in *. auto.
  - assert (E : pre ++ x :: l = (pre ++ [x]) ++ l) by (rewrite <- app_assoc; reflexivity).
    assert (L : S (List.length pre) = List.length (pre ++ [x]))
      by (rewrite length_app; simpl; lia).
    rewrite E, L.
    destruct (ltb x best) eqn:C.
    + apply IH.
      * rewrite <- E. rewrite nth_error_app2 by lia.
        rewrite Nat.sub_diag. reflexivity.
      * intros y Hy. apply in_app_or in Hy. destruct Hy as [Hy | [Hy | []]].
        -- destruct (ltb y x) eqn:D; [| reflexivity ].
           rewrite <- (Hpre y Hy). symmetry. eapply ltb_trans; eauto.
        -- subst y. apply ltb_irrefl.
    + apply IH.
      * rewrite <- E. exact Hb.
      * intros y Hy. apply in_app_or in Hy. destruct Hy as [Hy | [Hy | []]].
        -- auto.
        -- subst y. exact C.
Qed.

Lemma arg_first_least (name : string) (l : list T) :
  match arg_first name ltb l with
  | Return i => exists x, nth_error l i = Some x /\ forall y, In y l -> ltb y x = false
  | Raise _ => l = []
  end.
Proof.
  destruct l as [| x l]; simpl; [ reflexivity |].
  apply (@argmin_from_least l [x] x 0%nat).
  - reflexivity.
  - intros y [Hy | []]. subst y. apply ltb_irrefl.
Qed.

End ArgminFacts.

Section NearestFacts.

Import Util Stated.

Lemma Qltb_true (a b : Q) : Qltb a b = true <-> a < b.
Proof.
  unfold Qltb. rewrite negb_true_iff.
  destruct (Qle_bool b a) eqn:E.
  - apply Qle_bool_iff in E. split; [ discriminate | intros H; lra ].
  - split; [ intros _ | reflexivity ].
    apply Qnot_le_lt. intros H. apply Qle_bool_iff in H. congruence.
Qed.

Lemma Qltb_false (a b : Q) : Qltb a b = false <-> b <= a.
Proof.
  unfold Qltb. rewrite negb_false_iff. apply Qle_bool_iff.
Qed.

Lemma filled_ltb_irrefl (x : filled) : filled_ltb x x = false.
Proof.
  destruct x as [| | q]; simpl; auto. apply Qltb_false. lra.
Qed.

Lemma filled_ltb_trans (x y z : filled) :
  filled_ltb x y = true -> filled_ltb y z = true -> filled_ltb x z = true.
Proof.
  destruct x as [| | a], y as [| | b], z as [| | c]; simpl; auto; try discriminate.
  rewrite !Qltb_true. lra.
Qed.

Lemma in_drop_nan (q : Q) (raveled : list elem) :
  In q (drop_nan raveled) <-> In (Num q) raveled.
Proof.
  induction raveled as [| [| p] l IH]; simpl.
  - tauto.
  - rewrite IH. split; [ auto | intros [H | H]; [ discriminate | exact H ] ].
  - rewrite IH. split; intros [H | H]; auto; left; congruence.
Qed.

(** The filled masked array of [nearest], entry by entry. *)
Lemma filled_diff (fill : filled) (masker : Q -> bool) (value : Q) (cleaned : list Q) :
  let diff := map (fun x => x - value) cleaned in
  ma_filled fill (masked_array diff (map masker diff)) =
  map (fun c => if masker (c - value) then fill else Val (c - value)) cleaned.
Proof.
  unfold ma_filled, masked_array. induction cleaned as [| c l IH]; simpl.
  - reflexivity.
  - f_equal. exact IH.
Qed.

Lemma forallb_mask (masker : Q -> bool) (value : Q) (cleaned : list Q) :
  forallb (fun b : bool => b) (map masker (map (fun x => x - value) cleaned)) = true <->
  forall c, In c cleaned -> masker (c - value) = true.
Proof.
  rewrite forallb_forall. split.
  - intros H c Hc. apply H. apply in_map. apply (in_map (fun x => x - value)). exact Hc.
  - intros H b Hb. apply in_map_iff in Hb. destruct Hb as (d & <- & Hd).
    apply in_map_iff in Hd. destruct Hd as (c & <- & Hc). auto.
Qed.

Lemma getitem_nth {A : Type} (l : list A) (i : nat) (x : A) :
  nth_error l i = Some x -> getitem l i = Return x.
Proof. unfold getitem. intros ->. reflexivity. Qed.

(** With side "gt" the search is among the entries strictly above the
    target. *)
Lemma nearest_gt (array : ndarray elem) (value : Q) :
  exists r, nearest array value (Some "gt"%string) = Return r /\
            nearest_on_side (fun x => value < x) array value r.
Proof.
  unfold nearest. change (side_allowed (Some "gt"%string)) with true.
  change (String.eqb "gt" "gt") with true. cbv beta iota zeta delta [negb].
  set (cleaned := drop_nan (data array)).
  destruct (forallb _ _) eqn:F.
  - exists None. split; [ reflexivity |]. simpl. intros y Hy.
    apply in_drop_nan in Hy. fold cleaned in Hy.
    pose proof (proj1 (forallb_mask _ _ _) F y Hy) as M. simpl in M.
    apply Qle_bool_iff in M. lra.
  - assert (U : exists c, In c cleaned /\ value < c).
    { destruct (existsb (fun c => Qltb value c) cleaned) eqn:X.
      - apply existsb_exists in X. destruct X as (c & Hc & L).
        exists c. split; [ exact Hc | apply Qltb_true; exact L ].
      - exfalso. rewrite (proj2 (forallb_mask (fun d => Qle_bool d 0) value cleaned)) in F;
          [ discriminate |].
        intros c Hc. apply Qle_bool_iff.
        assert (L : Qltb value c = false).
        { destruct (Qltb value c) eqn:L; [| reflexivity ].
          rewrite <- X. symmetry. apply existsb_exists. exists c; auto. }
        apply Qltb_false in L. lra. }
    destruct U as (c & Hc & Lc).
    unfold ma_argmin.
    rewrite (filled_diff PInf (fun d => Qle_bool d 0) value cleaned).
    pose proof (@arg_first_least filled filled_ltb filled_ltb_irrefl filled_ltb_trans
                  "attempt to get argmin of an empty sequence"%string
                  (map (fun c => if Qle_bool (c - value) 0 then PInf else Val (c - value))
                       cleaned)) as A.
    destruct (arg_first _ _ _) as [idx | e].
    2:{ destruct cleaned; [ destruct Hc | discriminate ]. }
    destruct A as (xf & N & Least). simpl bind.
    rewrite nth_error_map in N.
    destruct (nth_error cleaned idx) as [c0 |] eqn:N0; [| discriminate ].
    simpl in N. inversion N as [X]; clear N.
    rewrite (getitem_nth _ _ N0). simpl.
    exists (Some c0). split; [ reflexivity |].
    assert (P : value < c0).
    { assert (I : In (Val (c - value)) (map (fun c => if Qle_bool (c - value) 0 then PInf else Val (c - value)) cleaned)).
      { apply in_map_iff. exists c. split; [| exact Hc ].
        destruct (Qle_bool (c - value) 0) eqn:B; [| reflexivity ].
        apply Qle_bool_iff in B. lra. }
      apply Least in I. rewrite <- X in I.
      destruct (Qle_bool (c0 - value) 0) eqn:B; [ discriminate |].
      apply Qnot_le_lt. intros H.
      assert (Qle_bool (c0 - value) 0 = true) by (apply Qle_bool_iff; lra).
      congruence. }
    unfold nearest_on_side. split; [| split ].
    + apply in_drop_nan. eapply nth_error_In; eauto.
    + exact P.
    + intros y Hy Ly. apply in_drop_nan in Hy. fold cleaned in Hy.
      assert (I : In (Val (y - value)) (map (fun c => if Qle_bool (c - value) 0 then PInf else Val (c - value)) cleaned)).
      { apply in_map_iff. exists y. split; [| exact Hy ].
        destruct (Qle_bool (y - value) 0) eqn:B; [| reflexivity ].
        apply Qle_bool_iff in B. lra. }
      apply Least in I. rewrite <- X in I.
      destruct (Qle_bool (c0 - value) 0) eqn:B.
      { apply Qle_bool_iff in B. lra. }
      simpl in I. apply Qltb_false in I.
      assert (A0 : Qabs (c0 - value) == c0 - value) by (apply Qabs_pos; lra).
      assert (A1 : Qabs (y - value) == y - value) by (apply Qabs_pos; lra).
      lra.
Qed.

(** With side "lt" the search is among the entries strictly below the
    target. *)
Lemma nearest_lt (array : ndarray elem) (value : Q) :
  exists r, nearest array value (Some "lt"%string) = Return r /\
            nearest_on_side (fun x => x < value) array value r.
Proof.
  unfold nearest. change (side_allowed (Some "lt"%string)) with true.
  change (String.eqb "lt" "gt") with false. cbv beta iota zeta delta [negb].
  set (cleaned := drop_nan (data array)).
  set (g := fun c : Q => if Qle_bool 0 (c - value) then NInf else Val (c - value)).
  destruct (forallb _ _) eqn:F.
  - exists None. split; [ reflexivity |]. simpl. intros y Hy.
    apply in_drop_nan in Hy. fold cleaned in Hy.
    pose proof (proj1 (forallb_mask _ _ _) F y Hy) as M. simpl in M.
    apply Qle_bool_iff in M. lra.
  - assert (U : exists c, In c cleaned /\ c < value).
    { destruct (existsb (fun c => Qltb c value) cleaned) eqn:X.
      - apply existsb_exists in X. destruct X as (c & Hc & L).
        exists c. split; [ exact Hc | apply Qltb_true; exact L ].
      - exfalso. rewrite (proj2 (forallb_mask (fun d => Qle_bool 0 d) value cleaned)) in F;
          [ discriminate |].
        intros c Hc. apply Qle_bool_iff.
        assert (L : Qltb c value = false).
        { destruct (Qltb c value) eqn:L; [| reflexivity ].
          rewrite <- X. symmetry. apply existsb_exists. exists c; auto. }
        apply Qltb_false in L. lra. }
    destruct U as (c & Hc & Lc).
    unfold ma_argmax.
    rewrite (filled_diff NInf (fun d => Qle_bool 0 d) value cleaned). fold g.
    pose proof (@arg_first_least filled (fun a b => filled_ltb b a)
                  filled_ltb_irrefl
                  (fun x y z H1 H2 => filled_ltb_trans z y x H2 H1)
                  "attempt to get argmax of an empty sequence"%string
                  (map g cleaned)) as A.
    destruct (arg_first _ _ _) as [idx | e].
    2:{ destruct cleaned; [ destruct Hc | discriminate ]. }
    destruct A as (xf & N & Greatest). simpl bind.
    rewrite nth_error_map in N.
    destruct (nth_error cleaned idx) as [c0 |] eqn:N0; [| discriminate ].
    simpl in N. inversion N as [X]; clear N.
    rewrite (getitem_nth _ _ N0). simpl.
    exists (Some c0). split; [ reflexivity |].
    assert (G : forall y, In y cleaned -> y < value -> In (Val (y - value)) (map g cleaned)).
    { intros y Hy Ly. apply in_map_iff. exists y. split; [| exact Hy ].
      unfold g. destruct (Qle_bool 0 (y - value)) eqn:B; [| reflexivity ].
      apply Qle_bool_iff in B. lra. }
    assert (P : c0 < value).
    { pose proof (Greatest _ (G c Hc Lc)) as I. rewrite <- X in I. unfold g in I.
      destruct (Qle_bool 0 (c0 - value)) eqn:B; [ discriminate |].
      apply Qnot_le_lt. intros H.
      assert (Qle_bool 0 (c0 - value) = true) by (apply Qle_bool_iff; lra).
      congruence. }
    unfold nearest_on_side. split; [| split ].
    + apply in_drop_nan. eapply nth_error_In; eauto.
    + exact P.
    + intros y Hy Ly. apply in_drop_nan in Hy. fold cleaned in Hy.
      pose proof (Greatest _ (G y Hy Ly)) as I. rewrite <- X in I. unfold g in I.
      destruct (Qle_bool 0 (c0 - value)) eqn:B.
      { apply Qle_bool_iff in B. lra. }
      simpl in I. apply Qltb_false in I.
      assert (A0 : Qabs (c0 - value) == - (c0 - value)) by (apply Qabs_neg; lra).
      assert (A1 : Qabs (y - value) == - (y - value)) by (apply Qabs_neg; lra).
      lra.
Qed.


(** C10: a [side] other than [None], "gt" and "lt" raises a [ValueError]
    whose message is filled with that side, whatever the array and the
    target are. *)
Theorem nearest_rejects_side (array : ndarray elem) (value : Q) (s : string) :
  s <> "gt"%string -> s <> "lt"%string ->
  nearest array value (Some s) = Raise (ValueError side_msg [AStr s]).
Proof.
  intros G L. unfold nearest, side_allowed.
  apply String.eqb_neq in G, L. rewrite G, L. reflexivity.
Qed.

Lemma nearest_rejects_side_witness :
  nearest (mk_ndarray [2%nat] [Num 1; NaN]) 3 (Some "ge"%string) =
  Raise (ValueError side_msg [AStr "ge"]).
Proof.
  apply nearest_rejects_side; discriminate.
Defined.

End NearestFacts.

(** ** topsis *)

Section TopsisFacts.

Import Util Closeness Stated.

Local Open Scope R_scope.

Variable rankdata : list float64 -> bool -> list Z.

Lemma nth_error_map2 {A B C : Type} (f : A -> B -> C) (a : list A) (b : list B) (i : nat) :
  nth_error (map2 f a b) i =
  match nth_error a i, nth_error b i with
  | Some x, Some y => Some (f x y)
  | _, _ => None
  end.
Proof.
  revert b i. induction a as [| x a IH]; intros [| y b] [| i]; simpl; auto;
    destruct (nth_error a i); reflexivity.
Qed.

Lemma nth_error_np_where (cond : list bool) (x y : list R) (j : nat) :
  nth_error (np_where cond x y) j =
  match nth_error cond j, nth_error x j, nth_error y j with
  | Some c, Some a, Some b => Some (if c then a else b)
  | _, _, _ => None
  end.
Proof.
  revert x y j. induction cond as [| c cond IH]; intros [| a x] [| b y] [| j];
    simpl; auto;
    destruct (nth_error cond j); try destruct (nth_error x j); reflexivity.
Qed.

(** What [TOPSIS.solve] returns on every input: [None] comes first, the
    ranking second, the closeness under its key third; it fails only on a
    matrix without rows. *)
Lemma solve_returns (ndata : Data) :
  match solve rankdata ndata with
  | Return (first, second, extra) =>
      exists t,
        topsis_trace (mtx ndata) (criteria ndata) (weights ndata) = Return t /\
        first = None /\
        second = Some (rankdata (t_closeness t) true) /\
        extra = [("closeness"%string, t_closeness t)]
  | Raise _ => mtx ndata = []
  end.
Proof.
  unfold solve, topsis. destruct ndata as [[| row rows] nc nw]; simpl.
  - reflexivity.
  - eexists. repeat split.
Qed.

(** C1: on the first scenario of the specification the tuple returned by
    [TOPSIS.solve] has [None] in the place of the kernel and the descending
    ranking of the closeness in the place of the rank, the other way round
    from the sentence and from the docstring of the class. *)
Theorem solve_rank_in_second_place :
  let ndata := mk_Data [[1; 2]; [2; 1]; [3; 3]] [MAX; MAX] [1 / 2; 1 / 2] in
  (exists closeness,
     solve rankdata ndata =
     Return (None, Some (rankdata closeness true), [("closeness"%string, closeness)])) /\
  ~ solve_stated rankdata ndata.
Proof.
  split.
  - eexists. reflexivity.
  - intros (t & _ & S). unfold solve, topsis in S. simpl in S. discriminate.
Qed.

(** The fields of the trace, one assignment of [topsis] each. *)
Lemma topsis_trace_fields (nmtx : list (list R)) (ncriteria : list Z) (nweights : list R)
    (t : trace) :
  topsis_trace nmtx ncriteria nweights = Return t ->
  t_wmtx t = np_multiply nmtx nweights /\
  np_min_axis0 (t_wmtx t) = Return (t_mins t) /\
  np_max_axis0 (t_wmtx t) = Return (t_maxs t) /\
  t_ideal t = ideal_point ncriteria (t_mins t) (t_maxs t) /\
  t_anti_ideal t = anti_ideal_point ncriteria (t_mins t) (t_maxs t) /\
  t_d_better t = distances (t_wmtx t) (t_ideal t) /\
  t_d_worst t = distances (t_wmtx t) (t_anti_ideal t) /\
  t_closeness t = relative_closeness (t_d_better t) (t_d_worst t).
Proof.
  unfold topsis_trace. intros H.
  apply bind_return in H. destruct H as (mins & Hmin & H).
  apply bind_return in H. destruct H as (maxs & Hmax & H).
  inversion H; subst t; clear H. simpl. repeat split; assumption.
Qed.

Lemma topsis_of_trace (nmtx : list (list R)) (ncriteria : list Z) (nweights : list R)
    (t : trace) :
  topsis_trace nmtx ncriteria nweights = Return t ->
  topsis rankdata nmtx ncriteria nweights =
  Return (rankdata (t_closeness t) true, t_closeness t).
Proof. unfold topsis. intros ->. reflexivity. Qed.

(** C4: for every input with at least one alternative, [topsis] builds the
    ideal point column by column as the column maximum where the criterion
    is [MAX] and the column minimum otherwise, and the anti-ideal point as
    the column maximum where the criterion is [MIN] and the column minimum
    otherwise; [mins] and [maxs] are the results of [np.min] and [np.max]
    along the columns of the weighted matrix. *)
Theorem topsis_ideal_points (nmtx : list (list R)) (ncriteria : list Z) (nweights : list R) :
  match topsis_trace nmtx ncriteria nweights with
  | Return t =>
      np_min_axis0 (np_multiply nmtx nweights) = Return (t_mins t) /\
      np_max_axis0 (np_multiply nmtx nweights) = Return (t_maxs t) /\
      forall j,
        nth_error (t_ideal t) j =
        match nth_error ncriteria j, nth_error (t_mins t) j, nth_error (t_maxs t) j with
        | Some c, Some mn, Some mx => Some (if (c =? MAX)%Z then mx else mn)
        | _, _, _ => None
        end /\
        nth_error (t_anti_ideal t) j =
        match nth_error ncriteria j, nth_error (t_mins t) j, nth_error (t_maxs t) j with
        | Some c, Some mn, Some mx => Some (if (c =? MIN)%Z then mx else mn)
        | _, _, _ => None
        end
  | Raise _ => nmtx = []
  end.
Proof.
  destruct (topsis_trace nmtx ncriteria nweights) as [t | e] eqn:E.
  - destruct (topsis_trace_fields _ _ _ E) as (W & Hmin & Hmax & I & AI & _).
    rewrite <- W. split; [ exact Hmin | split; [ exact Hmax |] ].
    intros j. rewrite I, AI. unfold ideal_point, anti_ideal_point, np_equal.
    rewrite !nth_error_np_where, !nth_error_map.
    destruct (nth_error ncriteria j) as [c |]; simpl; [| auto ].
    destruct (nth_error (t_maxs t) j) as [mx |], (nth_error (t_mins t) j) as [mn |]; auto.
  - destruct nmtx as [| row rows]; [ reflexivity | discriminate ].
Qed.

Lemma distances_nonneg (wmtx : list (list R)) (point : list R) (i : nat) (d : R) :
  nth_error (distances wmtx point) i = Some d -> 0 <= d.
Proof.
  unfold distances, distance. rewrite nth_error_map.
  destruct (nth_error wmtx i); simpl; intros H; inversion H. apply sqrt_pos.
Qed.

Lemma nth_error_closeness (d_better d_worst : list R) (i : nat) :
  nth_error (relative_closeness d_better d_worst) i =
  match nth_error d_better i, nth_error d_worst i with
  | Some db, Some dw => Some (np_true_divide dw (db + dw))
  | _, _ => None
  end.
Proof.
  unfold relative_closeness. rewrite !nth_error_map2.
  destruct (nth_error d_worst i), (nth_error d_better i); reflexivity.
Qed.


(** The division in the degenerate case. *)
Lemma degenerate_division (nmtx : list (list R)) (ncriteria : list Z)
    (nweights : list R) (t : trace) (i : nat) (db dw : R) :
  topsis_trace nmtx ncriteria nweights = Return t ->
  nth_error (t_d_better t) i = Some db ->
  nth_error (t_d_worst t) i = Some dw ->
  db + dw = 0 ->
  nth_error (t_closeness t) i = Some f_nan.
Proof.
  intros E Hb Hw Z0.
  destruct (topsis_trace_fields _ _ _ E) as (_ & _ & _ & _ & _ & Db & Dw & C).
  assert (Pb : 0 <= db) by (rewrite Db in Hb; eapply distances_nonneg; eauto).
  assert (Pw : 0 <= dw) by (rewrite Dw in Hw; eapply distances_nonneg; eauto).
  rewrite C, nth_error_closeness, Hb, Hw. unfold np_true_divide.
  destruct (Req_dec_T (db + dw) 0); [| contradiction ].
  destruct (Req_dec_T dw 0); [ reflexivity | exfalso; lra ].
Qed.

(** C2, amended: [topsis] has no guard for the degenerate case.  When the two
    distances of an alternative add up to zero, it raises nothing and the
    closeness of that alternative is the value of the division [0 / 0],
    NaN. *)
Theorem degenerate_closeness_is_nan (nmtx : list (list R)) (ncriteria : list Z)
    (nweights : list R) (t : trace) (i : nat) (db dw : R) :
  topsis_trace nmtx ncriteria nweights = Return t ->
  nth_error (t_d_better t) i = Some db ->
  nth_error (t_d_worst t) i = Some dw ->
  db + dw = 0 ->
  topsis rankdata nmtx ncriteria nweights =
    Return (rankdata (t_closeness t) true, t_closeness t) /\
  nth_error (t_closeness t) i = Some f_nan.
Proof.
  intros E Hb Hw Z0. split; [ apply topsis_of_trace; exact E |].
  eapply degenerate_division; eauto.
Qed.

(** *** Scaling the weights *)

Lemma Rmin_scale (k a b : R) : 0 <= k -> Rmin (k * a) (k * b) = k * Rmin a b.
Proof.
  intros K. unfold Rmin.
  destruct (Rle_dec a b) as [L | L], (Rle_dec (k * a) (k * b)) as [L' | L'];
    try reflexivity; nra.
Qed.

Lemma Rmax_scale (k a b : R) : 0 <= k -> Rmax (k * a) (k * b) = k * Rmax a b.
Proof. intros K. apply RmaxRmult. exact K. Qed.

Lemma map2_scale (f : R -> R -> R) (k : R) :
  (forall a b, f (k * a) (k * b) = k * f a b) ->
  forall a b, map2 f (map (Rmult k) a) (map (Rmult k) b) = map (Rmult k) (map2 f a b).
Proof.
  intros F. induction a as [| x a IH]; intros [| y b]; simpl; auto.
  rewrite F, IH. reflexivity.
Qed.

Lemma np_multiply_scale (k : R) (nmtx : list (list R)) (nweights : list R) :
  np_multiply nmtx (map (Rmult k) nweights) =
  map (map (Rmult k)) (np_multiply nmtx nweights).
Proof.
  unfold np_multiply. rewrite map_map. apply map_ext. intros row.
  revert nweights. induction row as [| x row IH]; intros [| w nweights]; simpl; auto.
  rewrite IH. f_equal. ring.
Qed.

Lemma fold_scale (f : R -> R -> R) (k : R) :
  (forall a b, f (k * a) (k * b) = k * f a b) ->
  forall rows row,
    fold_left (map2 f) (map (map (Rmult k)) rows) (map (Rmult k) row) =
    map (Rmult k) (fold_left (map2 f) rows row).
Proof.
  intros F. induction rows as [| r rows IH]; intros row; simpl; auto.
  rewrite (@map2_scale f k F). apply IH.
Qed.

Lemma np_where_scale (k : R) (cond : list bool) (x y : list R) :
  np_where cond (map (Rmult k) x) (map (Rmult k) y) = map (Rmult k) (np_where cond x y).
Proof.
  revert x y. induction cond as [| c cond IH]; intros [| a x] [| b y]; simpl; auto.
  rewrite IH. destruct c; reflexivity.
Qed.

Lemma np_sum_scale (c : R) (l : list R) : np_sum (map (Rmult c) l) = c * np_sum l.
Proof.
  unfold np_sum. induction l as [| x l IH]; simpl; [ ring | rewrite IH; ring ].
Qed.

Lemma distances_scale (k : R) (wmtx : list (list R)) (point : list R) :
  0 <= k ->
  distances (map (map (Rmult k)) wmtx) (map (Rmult k) point) =
  map (Rmult k) (distances wmtx point).
Proof.
  intros K. unfold distances, distance, squares.
  rewrite !map_map. apply map_ext. intros row.
  rewrite (@map2_scale Rminus k) by (intros; ring).
  rewrite map_map.
  rewrite (map_ext (fun x => (k * x) ^ 2) (fun x => (k * k) * x ^ 2)) by (intros; ring).
  rewrite <- (map_map (fun d => d ^ 2) (Rmult (k * k))).
  rewrite np_sum_scale.
  rewrite sqrt_mult_alt by nra. rewrite sqrt_square by exact K. reflexivity.
Qed.

Lemma np_true_divide_scale (k a b : R) :
  0 < k -> np_true_divide (k * a) (k * b) = np_true_divide a b.
Proof.
  intros K. unfold np_true_divide.
  destruct (Req_dec_T b 0) as [B | B], (Req_dec_T (k * b) 0) as [B' | B'];
    try (exfalso; nra).
  - destruct (Req_dec_T a 0) as [A | A], (Req_dec_T (k * a) 0) as [A' | A'];
      try (exfalso; nra); try reflexivity.
    destruct (Rlt_dec a 0), (Rlt_dec (k * a) 0); try reflexivity; exfalso; nra.
  - f_equal. field. split; lra.
Qed.

Lemma relative_closeness_scale (k : R) (d_better d_worst : list R) :
  0 < k ->
  relative_closeness (map (Rmult k) d_better) (map (Rmult k) d_worst) =
  relative_closeness d_better d_worst.
Proof.
  intros K. unfold relative_closeness.
  rewrite (@map2_scale Rplus k) by (intros; ring).
  revert d_better. induction d_worst as [| w d_worst IH]; intros [| b d_better];
    simpl; auto.
  rewrite np_true_divide_scale by exact K. f_equal. apply IH.
Qed.

Lemma np_min_axis0_scale (k : R) (wmtx : list (list R)) :
  0 <= k ->
  np_min_axis0 (map (map (Rmult k)) wmtx) =
  (mins <- np_min_axis0 wmtx ;; Return (map (Rmult k) mins)).
Proof.
  intros K. destruct wmtx as [| row rows]; [ reflexivity |].
  unfold np_min_axis0. cbn [map bind].
  rewrite (@fold_scale Rmin k (fun a b => @Rmin_scale k a b K)). reflexivity.
Qed.

Lemma np_max_axis0_scale (k : R) (wmtx : list (list R)) :
  0 <= k ->
  np_max_axis0 (map (map (Rmult k)) wmtx) =
  (maxs <- np_max_axis0 wmtx ;; Return (map (Rmult k) maxs)).
Proof.
  intros K. destruct wmtx as [| row rows]; [ reflexivity |].
  unfold np_max_axis0. cbn [map bind].
  rewrite (@fold_scale Rmax k (fun a b => @Rmax_scale k a b K)). reflexivity.
Qed.

(** With exact products, sums, roots and quotients, multiplying every
    weight by the same positive number changes nothing to what [topsis]
    returns. *)
Lemma topsis_scale_exact (nmtx : list (list R)) (ncriteria : list Z)
    (nweights : list R) (k : R) :
  0 < k ->
  topsis rankdata nmtx ncriteria (map (Rmult k) nweights) =
  topsis rankdata nmtx ncriteria nweights.
Proof.
  intros K. assert (K0 : 0 <= k) by lra.
  unfold topsis, topsis_trace. rewrite np_multiply_scale.
  set (wmtx := np_multiply nmtx nweights).
  rewrite np_min_axis0_scale, np_max_axis0_scale by exact K0.
  destruct (np_min_axis0 wmtx) as [mins | e]; [| reflexivity ].
  destruct (np_max_axis0 wmtx) as [maxs | e]; [| reflexivity ].
  cbn [bind t_closeness].
  unfold ideal_point, anti_ideal_point. rewrite !np_where_scale.
  rewrite !distances_scale by exact K0.
  rewrite relative_closeness_scale by exact K. reflexivity.
Qed.


End TopsisFacts.

(** ** Improving one alternative on one criterion *)

Section ListFacts.

Import Closeness.

Local Open Scope R_scope.

Lemma Forall2_of_nth_error {A B : Type} (P : A -> B -> Prop) (a : list A) (b : list B) :
  List.length a = List.length b ->
  (forall j x y, nth_error a j = Some x -> nth_error b j = Some y -> P x y) ->
  Forall2 P a b.
Proof.
  revert b. induction a as [| x a IH]; intros [| y b] L H; try discriminate.
  - constructor.
  - constructor.
    + apply (H 0%nat); reflexivity.
    + apply IH; [ simpl in L; lia |].
      intros j x' y' Hx Hy. apply (H (S j)); assumption.
Qed.

Lemma np_sum_cons (x : R) (a : list R) : np_sum (x :: a) = x + np_sum a.
Proof. reflexivity. Qed.

Lemma np_sum_le (a b : list R) : Forall2 Rle a b -> np_sum a <= np_sum b.
Proof.
  induction 1 as [| x y a b L _ IH]; [ lra |]. rewrite !np_sum_cons. lra.
Qed.

Lemma np_sum_eq_pointwise (a b : list R) :
  Forall2 Rle a b -> np_sum a = np_sum b -> a = b.
Proof.
  induction 1 as [| x y a b L F IH]; intros E; [ reflexivity |].
  pose proof (np_sum_le F) as S. rewrite !np_sum_cons in E.
  assert (x = y) by lra. subst y. f_equal. apply IH. lra.
Qed.

Lemma np_sum_nonneg (a : list R) : Forall (Rle 0) a -> 0 <= np_sum a.
Proof.
  induction 1 as [| x a P _ IH]; [ unfold np_sum; simpl; lra |].
  rewrite np_sum_cons. lra.
Qed.

Lemma np_sum_zero (a : list R) :
  Forall (Rle 0) a -> np_sum a = 0 -> Forall (eq 0) a.
Proof.
  induction 1 as [| x a P F IH]; intros E; constructor;
    pose proof (np_sum_nonneg F) as S; rewrite np_sum_cons in E.
  - lra.
  - apply IH. lra.
Qed.

Lemma length_map2 {A B C : Type} (f : A -> B -> C) (a : list A) (b : list B) :
  List.length (map2 f a b) = Nat.min (List.length a) (List.length b).
Proof.
  revert b. induction a as [| x a IH]; intros [| y b]; simpl; auto.
Qed.

Lemma nth_error_squares (point row : list R) (j : nat) :
  nth_error (squares point row) j =
  match nth_error row j, nth_error point j with
  | Some a, Some b => Some ((a - b) ^ 2)
  | _, _ => None
  end.
Proof.
  unfold squares. rewrite nth_error_map, nth_error_map2.
  destruct (nth_error row j), (nth_error point j); reflexivity.
Qed.

Lemma length_squares (point row : list R) :
  List.length (squares point row) = Nat.min (List.length row) (List.length point).
Proof. unfold squares. rewrite length_map. apply length_map2. Qed.

Lemma squares_nonneg (point row : list R) : Forall (Rle 0) (squares point row).
Proof.
  apply Forall_forall. intros x Hx. unfold squares in Hx.
  apply in_map_iff in Hx. destruct Hx as (d & <- & _). nra.
Qed.

Lemma square_zero (a b : R) : (a - b) ^ 2 = 0 -> a = b.
Proof.
  simpl. intros H. apply Rmult_integral in H. destruct H as [H | H]; lra.
Qed.

Lemma square_le (a b : R) : 0 <= a <= b -> a ^ 2 <= b ^ 2.
Proof. intros H. simpl. nra. Qed.

Lemma square_le_flip (a b c d : R) :
  0 <= b - a <= d - c -> (a - b) ^ 2 <= (c - d) ^ 2.
Proof. intros H. simpl. nra. Qed.

Lemma square_eq (a b : R) : 0 <= a -> 0 <= b -> a ^ 2 = b ^ 2 -> a = b.
Proof. intros A B H. simpl in H. nra. Qed.

Lemma distance_nonneg (point row : list R) : 0 <= distance point row.
Proof. apply sqrt_pos. Qed.

Lemma distance_le (p q r s : list R) :
  Forall2 Rle (squares p r) (squares q s) -> distance p r <= distance q s.
Proof. intros F. apply sqrt_le_1_alt. apply np_sum_le. exact F. Qed.

Lemma distance_eq_squares (p q r s : list R) :
  Forall2 Rle (squares p r) (squares q s) ->
  distance p r = distance q s -> squares p r = squares q s.
Proof.
  intros F E. apply np_sum_eq_pointwise; [ exact F |].
  apply sqrt_inj; [ apply np_sum_nonneg, squares_nonneg
                  | apply np_sum_nonneg, squares_nonneg | exact E ].
Qed.

Lemma distance_zero (p r : list R) :
  distance p r = 0 -> Forall (eq 0) (squares p r).
Proof.
  intros E. apply np_sum_zero; [ apply squares_nonneg |].
  apply sqrt_eq_0; [ apply np_sum_nonneg, squares_nonneg | exact E ].
Qed.

Lemma zero_distance (p r : list R) :
  Forall (eq 0) (squares p r) -> distance p r = 0.
Proof.
  intros F. unfold distance.
  replace (np_sum (squares p r)) with 0; [ apply sqrt_0 |].
  induction F as [| x a <- _ IH]; [ reflexivity |].
  rewrite np_sum_cons, <- IH. ring.
Qed.

(** *** [set_nth] *)

Lemma length_set_nth {A : Type} (l : list A) (i : nat) (x : A) :
  List.length (set_nth l i x) = List.length l.
Proof.
  revert i. induction l as [| y l IH]; intros [| i]; simpl; auto.
Qed.

Lemma nth_error_set_nth_eq {A : Type} (l : list A) (i : nat) (x y : A) :
  nth_error l i = Some y -> nth_error (set_nth l i x) i = Some x.
Proof.
  revert i. induction l as [| z l IH]; intros [| i]; simpl; try discriminate; auto.
Qed.

Lemma nth_error_set_nth_neq {A : Type} (l : list A) (i k : nat) (x : A) :
  k <> i -> nth_error (set_nth l i x) k = nth_error l k.
Proof.
  revert i k. induction l as [| z l IH]; intros [| i] [| k] N; simpl; auto;
    try contradiction; try (apply IH; lia).
Qed.

Lemma set_nth_same {A : Type} (l : list A) (i : nat) (x : A) :
  nth_error l i = Some x -> set_nth l i x = l.
Proof.
  revert i. induction l as [| z l IH]; intros [| i]; simpl; try discriminate.
  - intros H; inversion H; reflexivity.
  - intros H. f_equal. apply IH. exact H.
Qed.

Lemma in_set_nth {A : Type} (l : list A) (i : nat) (x y : A) :
  In y (set_nth l i x) ->
  y = x \/ exists k, k <> i /\ nth_error l k = Some y.
Proof.
  intros H. apply In_nth_error in H. destruct H as (k & H).
  destruct (Nat.eq_dec k i) as [-> | N].
  - left. destruct (nth_error l i) as [z |] eqn:E.
    + rewrite (nth_error_set_nth_eq _ _ x E) in H. congruence.
    + exfalso. apply nth_error_None in E.
      assert (nth_error (set_nth l i x) i <> None) by congruence.
      apply nth_error_Some in H0. rewrite length_set_nth in H0. lia.
  - right. exists k. rewrite nth_error_set_nth_neq in H by exact N. auto.
Qed.

Lemma length_np_where (cond : list bool) (x y : list R) :
  List.length (np_where cond x y) =
  Nat.min (List.length cond) (Nat.min (List.length x) (List.length y)).
Proof.
  revert x y. induction cond as [| c cond IH]; intros [| a x] [| b y]; simpl; auto.
Qed.

Lemma nth_error_defined {A : Type} (l : list A) (j : nat) :
  (j < List.length l)%nat -> exists x, nth_error l j = Some x.
Proof.
  intros L. destruct (nth_error l j) as [x |] eqn:E; [ eauto |].
  apply nth_error_None in E. lia.
Qed.

End ListFacts.

(** *** The extremes of a column *)

Section ColumnExtreme.

Import Closeness.

Local Open Scope R_scope.

Variable f : R -> R -> R.
Variable le : R -> R -> Prop.
Hypothesis le_refl : forall x, le x x.
Hypothesis le_trans : forall x y z, le x y -> le y z -> le x z.
Hypothesis le_antisym : forall x y, le x y -> le y x -> x = y.
Hypothesis f_l : forall x y, le (f x y) x.
Hypothesis f_r : forall x y, le (f x y) y.
Hypothesis f_case : forall x y, f x y = x \/ f x y = y.

Lemma fold_column_extreme (rows : list (list R)) (row : list R) (j : nat) (a : R) :
  nth_error (fold_left (map2 f) rows row) j = Some a ->
  column_extreme le (row :: rows) j a.
Proof.
  revert row. induction rows as [| r1 rows IH]; intros row H; simpl in H.
  - split.
    + intros r [<- | []]. exists a. auto.
    + exists row. split; [ left; reflexivity | exact H ].
  - destruct (IH _ H) as [Lo (r & Hr & At)].
    destruct (Lo _ (or_introl eq_refl)) as (u & Hu & Lu).
    rewrite nth_error_map2 in Hu.
    destruct (nth_error row j) as [x |] eqn:X; [| discriminate ].
    destruct (nth_error r1 j) as [y |] eqn:Y; [| discriminate ].
    inversion Hu; subst u; clear Hu.
    split.
    + intros r' [<- | [<- | Hr']].
      * exists x. split; [ exact X | eapply le_trans; eauto ].
      * exists y. split; [ exact Y | eapply le_trans; eauto ].
      * apply Lo. right. exact Hr'.
    + destruct Hr as [<- | Hr].
      * rewrite nth_error_map2, X, Y in At. inversion At as [E].
        destruct (f_case x y) as [F | F]; rewrite F in *.
        -- exists row. split; [ left; reflexivity | congruence ].
        -- exists r1. split; [ right; left; reflexivity | congruence ].
      * exists r. split; [ right; right; exact Hr | exact At ].
Qed.

Lemma length_fold_map2 (m : nat) (rows : list (list R)) (row : list R) :
  Forall (fun r => List.length r = m) rows -> List.length row = m ->
  List.length (fold_left (map2 f) rows row) = m.
Proof.
  intros F. revert row. induction F as [| r rows L _ IH]; intros row Lr; simpl.
  - exact Lr.
  - apply IH. rewrite length_map2, L, Lr. apply Nat.min_id.
Qed.

Lemma column_extreme_unique (wmtx : list (list R)) (j : nat) (a b : R) :
  column_extreme le wmtx j a -> column_extreme le wmtx j b -> a = b.
Proof.
  intros [La (ra & Ia & Aa)] [Lb (rb & Ib & Ab)].
  destruct (La _ Ib) as (u & Hu & L1). destruct (Lb _ Ia) as (w & Hw & L2).
  rewrite Ab in Hu. rewrite Aa in Hw. inversion Hu; inversion Hw; subst.
  apply le_antisym; assumption.
Qed.

End ColumnExtreme.

Section ColumnMinMax.

Import Closeness.

Local Open Scope R_scope.

Lemma Rmin_either (x y : R) : Rmin x y = x \/ Rmin x y = y.
Proof. unfold Rmin. destruct (Rle_dec x y); auto. Qed.

Lemma Rmax_either (x y : R) : Rmax x y = x \/ Rmax x y = y.
Proof. unfold Rmax. destruct (Rle_dec x y); auto. Qed.

Lemma np_min_column (wmtx : list (list R)) (mins : list R) (j : nat) (a : R) :
  np_min_axis0 wmtx = Return mins -> nth_error mins j = Some a ->
  column_min wmtx j a.
Proof.
  destruct wmtx as [| row rows]; [ discriminate |]. intros H; inversion H; subst mins.
  apply (@fold_column_extreme Rmin Rle); auto using Rle_refl, Rmin_l, Rmin_r, Rmin_either.
  intros x y z; apply Rle_trans.
Qed.

Lemma np_max_column (wmtx : list (list R)) (maxs : list R) (j : nat) (a : R) :
  np_max_axis0 wmtx = Return maxs -> nth_error maxs j = Some a ->
  column_max wmtx j a.
Proof.
  destruct wmtx as [| row rows]; [ discriminate |]. intros H; inversion H; subst maxs.
  apply (@fold_column_extreme Rmax Rge); auto using Rge_refl, Rmax_either.
  - intros x y z; apply Rge_trans.
  - intros x y. apply Rle_ge, Rmax_l.
  - intros x y. apply Rle_ge, Rmax_r.
Qed.

Lemma np_min_length (m : nat) (wmtx : list (list R)) (mins : list R) :
  Forall (fun r => List.length r = m) wmtx ->
  np_min_axis0 wmtx = Return mins -> List.length mins = m.
Proof.
  destruct wmtx as [| row rows]; [ discriminate |]. intros F H; inversion H; subst mins.
  inversion F; subst. apply length_fold_map2; auto.
Qed.

Lemma np_max_length (m : nat) (wmtx : list (list R)) (maxs : list R) :
  Forall (fun r => List.length r = m) wmtx ->
  np_max_axis0 wmtx = Return maxs -> List.length maxs = m.
Proof.
  destruct wmtx as [| row rows]; [ discriminate |]. intros F H; inversion H; subst maxs.
  inversion F; subst. apply length_fold_map2; auto.
Qed.

Lemma column_min_unique (wmtx : list (list R)) (j : nat) (a b : R) :
  column_min wmtx j a -> column_min wmtx j b -> a = b.
Proof. apply column_extreme_unique. intros x y; apply Rle_antisym. Qed.

Lemma column_max_unique (wmtx : list (list R)) (j : nat) (a b : R) :
  column_max wmtx j a -> column_max wmtx j b -> a = b.
Proof. apply column_extreme_unique. intros x y; apply Rge_antisym. Qed.

End ColumnMinMax.

(** *** One column before and after the change *)

Section ScalarFacts.

Local Open Scope R_scope.

(** [v] and [v'] are the entries of the improved alternative before and
    after, [U] holds of the entries of the other alternatives. *)
Variable U : R -> Prop.
Variables v v' : R.
Hypothesis improved : v < v'.

Lemma improve_max (M M' : R) :
  M >= v -> (forall u, U u -> M >= u) -> (M = v \/ U M) ->
  M' >= v' -> (forall u, U u -> M' >= u) -> (M' = v' \/ U M') ->
  0 <= M' - v' <= M - v /\ M <= M' /\ (M' - v' = M - v -> M = v /\ M' = v').
Proof.
  intros B1 B2 A B1' B2' A'.
  destruct A' as [A' | A'].
  - destruct A as [A | A]; [| pose proof (B2' _ A) ]; repeat split; lra.
  - pose proof (B2 _ A').
    destruct A as [A | A]; [| pose proof (B2' _ A) ]; repeat split; lra.
Qed.

Lemma improve_min (m m' : R) :
  m <= v -> (forall u, U u -> m <= u) -> (m = v \/ U m) ->
  m' <= v' -> (forall u, U u -> m' <= u) -> (m' = v' \/ U m') ->
  0 <= v - m <= v' - m' /\ m <= m' /\ (v' - m' = v - m -> v = m /\ v' = m').
Proof.
  intros B1 B2 A B1' B2' A'.
  destruct A as [A | A].
  - destruct A' as [A' | A']; [| pose proof (B2 _ A') ]; repeat split; lra.
  - pose proof (B2' _ A).
    destruct A' as [A' | A']; [| pose proof (B2 _ A') ]; repeat split; lra.
Qed.

End ScalarFacts.

Section RatioFacts.

Local Open Scope R_scope.

Lemma div_le_cross (a b c d : R) :
  0 < b -> 0 < d -> a * d <= c * b -> a / b <= c / d.
Proof.
  intros B D H.
  replace (a / b) with (a * d * / (b * d)) by (field; lra).
  replace (c / d) with (c * b * / (b * d)) by (field; lra).
  apply Rmult_le_compat_r; [| exact H ].
  left. apply Rinv_0_lt_compat. nra.
Qed.

Lemma div_eq_cross (a b c d : R) :
  0 < b -> 0 < d -> a / b = c / d -> a * d = c * b.
Proof.
  intros B D H.
  replace a with (a / b * b) by (field; lra). rewrite H. field. lra.
Qed.

(** The closeness does not decrease when the distance to the ideal point
    does not grow and the distance to the anti-ideal point does not
    shrink. *)
Lemma ratio_le (db dw db' dw' : R) :
  0 <= db' <= db -> 0 <= dw <= dw' -> 0 < db + dw -> 0 < db' + dw' ->
  dw / (db + dw) <= dw' / (db' + dw').
Proof.
  intros B W P P'. apply div_le_cross; try assumption.
  assert (dw * db' <= dw * db) by (apply Rmult_le_compat_l; lra).
  assert (dw * db <= dw' * db) by (apply Rmult_le_compat_r; lra).
  lra.
Qed.

(** ... and it stays the same in three cases only. *)
Lemma ratio_eq_cases (db dw db' dw' : R) :
  0 <= db' <= db -> 0 <= dw <= dw' -> 0 < db + dw -> 0 < db' + dw' ->
  dw / (db + dw) = dw' / (db' + dw') ->
  (db' = db /\ dw' = dw) \/ (dw = 0 /\ dw' = 0) \/ (db = 0 /\ db' = 0).
Proof.
  intros B W P P' E. apply div_eq_cross in E; try assumption.
  assert (H1 : dw * db' <= dw * db) by (apply Rmult_le_compat_l; lra).
  assert (H2 : dw * db <= dw' * db) by (apply Rmult_le_compat_r; lra).
  assert (E1 : dw * (db - db') = 0) by lra.
  assert (E2 : db * (dw' - dw) = 0) by lra.
  apply Rmult_integral in E1, E2.
  destruct E1 as [E1 | E1], E2 as [E2 | E2].
  - exfalso; lra.
  - right; left. lra.
  - right; right. lra.
  - left. lra.
Qed.

End RatioFacts.

(** *** Counting and ranks *)

Section CountFacts.

Import Closeness Rank.

Local Open Scope nat_scope.

Lemma count_cons {A : Type} (p : A -> bool) (x : A) (l : list A) :
  count p (x :: l) = (if p x then 1 else 0) + count p l.
Proof. unfold count. simpl. destruct (p x); reflexivity. Qed.

Lemma count_le_pointwise {A B : Type} (P : A -> bool) (Q : B -> bool)
    (xs : list A) (ys : list B) :
  List.length xs = List.length ys ->
  (forall k x y, nth_error xs k = Some x -> nth_error ys k = Some y ->
                 P x = true -> Q y = true) ->
  count P xs <= count Q ys.
Proof.
  revert ys. induction xs as [| x xs IH]; intros [| y ys] L H; try discriminate.
  - apply Nat.le_refl.
  - rewrite !count_cons.
    assert (T : count P xs <= count Q ys).
    { apply IH; [ simpl in L; lia |].
      intros k a b Ha Hb. apply (H (S k)); assumption. }
    pose proof (H 0 x y eq_refl eq_refl) as H0.
    destruct (P x); [ rewrite H0 by reflexivity | destruct (Q y) ]; lia.
Qed.

(** All positions but [i] carry [P] over to [Q]: at most one more entry
    satisfies [P] than [Q]. *)
Lemma count_le_succ {A B : Type} (P : A -> bool) (Q : B -> bool)
    (xs : list A) (ys : list B) (i : nat) :
  List.length xs = List.length ys ->
  (forall k x y, k <> i -> nth_error xs k = Some x -> nth_error ys k = Some y ->
                 P x = true -> Q y = true) ->
  count P xs <= S (count Q ys).
Proof.
  revert ys i. induction xs as [| x xs IH]; intros [| y ys] i L H; try discriminate.
  - unfold count; simpl; lia.
  - rewrite !count_cons. destruct i as [| i].
    + assert (T : count P xs <= count Q ys).
      { apply count_le_pointwise; [ simpl in L; lia |].
        intros k a b Ha Hb. apply (H (S k)); [ lia | assumption | assumption ]. }
      destruct (P x), (Q y); lia.
    + assert (T : count P xs <= S (count Q ys)).
      { apply (IH ys i); [ simpl in L; lia |].
        intros k a b N Ha Hb. apply (H (S k)); [ lia | assumption | assumption ]. }
      pose proof (H 0 x y (Nat.neq_0_succ i) eq_refl eq_refl) as H0.
      destruct (P x); [ rewrite H0 by reflexivity | destruct (Q y) ]; lia.
Qed.

Lemma count_true {A : Type} (l : list A) : count (fun _ => true) l = List.length l.
Proof.
  induction l as [| x l IH]; [ reflexivity |]. rewrite count_cons, IH. reflexivity.
Qed.

Lemma count_false {A : Type} (l : list A) : count (fun _ => false) l = 0.
Proof.
  induction l as [| x l IH]; [ reflexivity |]. rewrite count_cons, IH. reflexivity.
Qed.

Lemma Rltb_true (x y : R) : Rltb x y = true <-> (x < y)%R.
Proof.
  unfold Rltb. destruct (Rlt_dec x y); split; auto; discriminate.
Qed.

Lemma Rleb_true (x y : R) : Rleb x y = true <-> (x <= y)%R.
Proof.
  unfold Rleb. destruct (Rle_dec x y); split; auto; discriminate.
Qed.

Variable rankdata : list float64 -> bool -> list Z.
Hypothesis contract : descending_ranks rankdata.

Lemma rank_exists (scores : list float64) (i : nat) (c : float64) :
  nth_error scores i = Some c ->
  exists r, nth_error (rankdata scores true) i = Some r /\
            (1 <= r <= Z.of_nat (List.length scores))%Z.
Proof.
  intros H. destruct contract as (Len & Range & _).
  destruct (nth_error (rankdata scores true) i) as [r |] eqn:E.
  - exists r. split; [ reflexivity | eapply Range; eauto ].
  - exfalso. apply nth_error_None in E. rewrite Len in E.
    assert (nth_error scores i <> None) by congruence.
    apply nth_error_Some in H0. lia.
Qed.

(** The ranks of position [i] in two lists of numbers, when every other
    position that is at least as high as [i] in the second list was strictly
    higher than [i] in the first. *)
Lemma rank_not_worse (xs xs' : list R) (i : nat) (x x' : R) :
  List.length xs = List.length xs' ->
  nth_error xs i = Some x -> nth_error xs' i = Some x' ->
  (forall k y y', k <> i -> nth_error xs k = Some y -> nth_error xs' k = Some y' ->
                  (x' <= y')%R -> (x < y)%R) ->
  exists r r',
    nth_error (rankdata (map f_fin xs) true) i = Some r /\
    nth_error (rankdata (map f_fin xs') true) i = Some r' /\
    (r' <= r)%Z.
Proof.
  intros L Hx Hx' H.
  destruct (@rank_exists (map f_fin xs) i (f_fin x)) as (r & Hr & _).
  { rewrite nth_error_map, Hx. reflexivity. }
  destruct (@rank_exists (map f_fin xs') i (f_fin x')) as (r' & Hr' & _).
  { rewrite nth_error_map, Hx'. reflexivity. }
  exists r, r'. split; [ exact Hr | split; [ exact Hr' |] ].
  destruct contract as (_ & _ & Bounds).
  pose proof (Bounds xs i x r Hx Hr) as [B _].
  pose proof (Bounds xs' i x' r' Hx' Hr') as [_ B'].
  assert (C : count (Rleb x') xs' <= S (count (Rltb x) xs)).
  { apply (@count_le_succ _ _ _ _ xs' xs i); [ lia |].
    intros k y' y N Hy' Hy P. apply Rltb_true. apply Rleb_true in P. eauto. }
  lia.
Qed.

End CountFacts.

(** *** The two points of one matrix *)

Section OneMatrix.

Import Util Closeness.

Local Open Scope R_scope.

Variable wmtx : list (list R).
Variable ncriteria : list Z.
Variable m : nat.
Variables mins maxs : list R.
Hypothesis rows_length : Forall (fun r => List.length r = m) wmtx.
Hypothesis criteria_length : List.length ncriteria = m.
Hypothesis mins_eq : np_min_axis0 wmtx = Return mins.
Hypothesis maxs_eq : np_max_axis0 wmtx = Return maxs.

Lemma length_ideal_point : List.length (ideal_point ncriteria mins maxs) = m.
Proof.
  unfold ideal_point, np_equal. rewrite length_np_where, length_map.
  rewrite (np_min_length rows_length mins_eq), (np_max_length rows_length maxs_eq).
  lia.
Qed.

Lemma length_anti_ideal_point : List.length (anti_ideal_point ncriteria mins maxs) = m.
Proof.
  unfold anti_ideal_point, np_equal. rewrite length_np_where, length_map.
  rewrite (np_min_length rows_length mins_eq), (np_max_length rows_length maxs_eq).
  lia.
Qed.

(** Column [j] of the matrix: its criterion, its extremes and the entries of
    the two points. *)
Lemma point_nth (j : nat) :
  (j < m)%nat ->
  exists c lo hi,
    nth_error ncriteria j = Some c /\
    column_min wmtx j lo /\ column_max wmtx j hi /\
    nth_error (ideal_point ncriteria mins maxs) j = Some (if (c =? MAX)%Z then hi else lo) /\
    nth_error (anti_ideal_point ncriteria mins maxs) j = Some (if (c =? MIN)%Z then hi else lo).
Proof.
  intros J.
  destruct (@nth_error_defined _ ncriteria j) as (c & Hc); [ lia |].
  destruct (@nth_error_defined _ mins j) as (lo & Hlo).
  { rewrite (np_min_length rows_length mins_eq). exact J. }
  destruct (@nth_error_defined _ maxs j) as (hi & Hhi).
  { rewrite (np_max_length rows_length maxs_eq). exact J. }
  exists c, lo, hi. split; [ exact Hc |].
  split; [ eapply np_min_column; eauto |].
  split; [ eapply np_max_column; eauto |].
  unfold ideal_point, anti_ideal_point, np_equal.
  rewrite !nth_error_np_where, !nth_error_map, Hc, Hlo, Hhi. simpl. auto.
Qed.

Lemma column_range (row : list R) (j : nat) (u lo hi : R) :
  In row wmtx -> nth_error row j = Some u ->
  column_min wmtx j lo -> column_max wmtx j hi -> lo <= u <= hi.
Proof.
  intros I Hu [Lo _] [Hi _].
  destruct (Lo _ I) as (a & Ha & La). destruct (Hi _ I) as (b & Hb & Lb).
  rewrite Hu in Ha, Hb. inversion Ha; inversion Hb; subst. lra.
Qed.

Lemma row_length (row : list R) : In row wmtx -> List.length row = m.
Proof. intros I. eapply (proj1 (Forall_forall _ _) rows_length); eauto. Qed.

Hypothesis criteria_valid : Forall (fun c => c = MIN \/ c = MAX) ncriteria.

(** With valid criteria, a row at distance zero from both points forces
    every row to be at distance zero from both points. *)
Lemma degenerate_all (row : list R) :
  In row wmtx ->
  distance (ideal_point ncriteria mins maxs) row +
  distance (anti_ideal_point ncriteria mins maxs) row = 0 ->
  forall row2, In row2 wmtx ->
    distance (ideal_point ncriteria mins maxs) row2 = 0 /\
    distance (anti_ideal_point ncriteria mins maxs) row2 = 0.
Proof.
  set (ideal := ideal_point ncriteria mins maxs).
  set (anti := anti_ideal_point ncriteria mins maxs).
  intros I Z0 row2 I2.
  pose proof (distance_nonneg ideal row). pose proof (distance_nonneg anti row).
  assert (Zi : Forall (eq 0) (squares ideal row)) by (apply distance_zero; lra).
  assert (Za : Forall (eq 0) (squares anti row)) by (apply distance_zero; lra).
  assert (Col : forall j u, nth_error row2 j = Some u ->
                nth_error ideal j = Some u /\ nth_error anti j = Some u).
  { intros j u Hu.
    assert (J : (j < m)%nat).
    { rewrite <- (row_length row2 I2). apply nth_error_Some. congruence. }
    destruct (point_nth J) as (c & lo & hi & Hc & Cmin & Cmax & Hi & Ha).
    fold ideal in Hi. fold anti in Ha.
    destruct (@nth_error_defined _ row j) as (w & Hw).
    { rewrite (row_length row I). exact J. }
    assert (Ei : (w - (if (c =? MAX)%Z then hi else lo)) ^ 2 = 0).
    { symmetry. apply (proj1 (Forall_forall _ _) Zi).
      eapply nth_error_In. rewrite nth_error_squares, Hw, Hi. reflexivity. }
    assert (Ea : (w - (if (c =? MIN)%Z then hi else lo)) ^ 2 = 0).
    { symmetry. apply (proj1 (Forall_forall _ _) Za).
      eapply nth_error_In. rewrite nth_error_squares, Hw, Ha. reflexivity. }
    pose proof (column_range row2 I2 Hu Cmin Cmax) as Ru.
    assert (V : c = MIN \/ c = MAX).
    { apply (proj1 (Forall_forall _ _) criteria_valid). eapply nth_error_In; eauto. }
    rewrite Hi, Ha.
    apply square_zero in Ei, Ea.
    destruct V as [-> | ->]; simpl in *; split; f_equal; lra. }
  split; apply zero_distance; apply Forall_forall; intros x Hx;
    apply In_nth_error in Hx; destruct Hx as (j & Hx);
    rewrite nth_error_squares in Hx;
    destruct (nth_error row2 j) as [u |] eqn:Hu; try discriminate;
    destruct (Col j u Hu) as [Ci Ca]; rewrite ?Ci, ?Ca in Hx;
    inversion Hx; ring.
Qed.

End OneMatrix.

(** *** The closeness of every row *)

Section ClosenessRows.

Import Closeness.

Local Open Scope R_scope.

Lemma closeness_rows (wmtx : list (list R)) (ideal anti : list R) :
  relative_closeness (distances wmtx ideal) (distances wmtx anti) =
  map (closeness_row ideal anti) wmtx.
Proof.
  unfold relative_closeness, distances.
  induction wmtx as [| r wmtx IH]; [ reflexivity |].
  cbn [map map2]. rewrite IH. reflexivity.
Qed.

Lemma closeness_row_number (ideal anti row : list R) :
  distance ideal row + distance anti row <> 0 ->
  closeness_row ideal anti row = f_fin (closeness_value ideal anti row).
Proof.
  intros N. unfold closeness_row, np_true_divide.
  destruct (Req_dec_T _ 0); [ contradiction | reflexivity ].
Qed.

Lemma closeness_row_nan (ideal anti row : list R) :
  distance ideal row = 0 -> distance anti row = 0 ->
  closeness_row ideal anti row = f_nan.
Proof.
  intros B W. unfold closeness_row, np_true_divide. rewrite B, W.
  destruct (Req_dec_T (0 + 0) 0) as [_ | N]; [| exfalso; lra ].
  destruct (Req_dec_T 0 0) as [_ | N]; [ reflexivity | exfalso; lra ].
Qed.

Lemma closeness_rows_numbers (wmtx : list (list R)) (ideal anti : list R) :
  (forall r, In r wmtx -> distance ideal r + distance anti r <> 0) ->
  map (closeness_row ideal anti) wmtx = map f_fin (map (closeness_value ideal anti) wmtx).
Proof.
  intros N. rewrite map_map. apply map_ext_in. intros r Hr.
  apply closeness_row_number. apply N. exact Hr.
Qed.

Lemma closeness_rows_nan (wmtx : list (list R)) (ideal anti : list R) :
  (forall r, In r wmtx -> distance ideal r = 0 /\ distance anti r = 0) ->
  map (closeness_row ideal anti) wmtx = repeat f_nan (List.length wmtx).
Proof.
  intros D. induction wmtx as [| r wmtx IH]; [ reflexivity |].
  cbn [map List.length repeat]. f_equal.
  - apply closeness_row_nan; apply (D r); left; reflexivity.
  - apply IH. intros r' Hr'. apply D. right. exact Hr'.
Qed.

Lemma closeness_value_zero (ideal anti row : list R) :
  distance anti row = 0 -> closeness_value ideal anti row = 0.
Proof. intros W. unfold closeness_value. rewrite W. unfold Rdiv. ring. Qed.

Lemma closeness_value_one (ideal anti row : list R) :
  distance ideal row = 0 -> distance anti row <> 0 ->
  closeness_value ideal anti row = 1.
Proof. intros B W. unfold closeness_value. rewrite B. field. lra. Qed.

Lemma nth_error_map_inv {A B : Type} (f : A -> B) (l : list A) (k : nat) (y : B) :
  nth_error (map f l) k = Some y -> exists x, nth_error l k = Some x /\ y = f x.
Proof.
  rewrite nth_error_map. destruct (nth_error l k) as [x |]; simpl; [| discriminate ].
  intros [= <-]. eauto.
Qed.

End ClosenessRows.

(** *** The matrix before and after the change *)

Section Improve.

Import Util Closeness.

Local Open Scope R_scope.

Variable W : list (list R).
Variable ncriteria : list Z.
Variables m i j0 : nat.
Variable ri : list R.
Variables v v' : R.
Variables mins maxs mins' maxs' : list R.

Local Abbreviation W' := (set_nth W i (set_nth ri j0 v')).

Hypothesis rows_length : Forall (fun r => List.length r = m) W.
Hypothesis criteria_length : List.length ncriteria = m.
Hypothesis criterion_max : nth_error ncriteria j0 = Some MAX.
Hypothesis row_i : nth_error W i = Some ri.
Hypothesis entry_v : nth_error ri j0 = Some v.
Hypothesis improved : v < v'.
Hypothesis mins_eq : np_min_axis0 W = Return mins.
Hypothesis maxs_eq : np_max_axis0 W = Return maxs.
Hypothesis mins'_eq : np_min_axis0 W' = Return mins'.
Hypothesis maxs'_eq : np_max_axis0 W' = Return maxs'.

Local Abbreviation ideal := (ideal_point ncriteria mins maxs).
Local Abbreviation anti := (anti_ideal_point ncriteria mins maxs).
Local Abbreviation ideal' := (ideal_point ncriteria mins' maxs').
Local Abbreviation anti' := (anti_ideal_point ncriteria mins' maxs').
Local Abbreviation ri' := (set_nth ri j0 v').

(** The entries of the other alternatives in the changed column. *)
Local Abbreviation U :=
  (fun u : R => exists k r, k <> i /\ nth_error W k = Some r /\ nth_error r j0 = Some u).

Lemma ri_in : In ri W.
Proof. eapply nth_error_In; eauto. Qed.

Lemma ri_length : List.length ri = m.
Proof. apply (proj1 (Forall_forall _ _) rows_length). exact ri_in. Qed.

Lemma j0_lt : (j0 < m)%nat.
Proof. rewrite <- ri_length. apply nth_error_Some. congruence. Qed.

Lemma row'_i : nth_error W' i = Some ri'.
Proof. eapply nth_error_set_nth_eq; eauto. Qed.

Lemma ri'_in : In ri' W'.
Proof. eapply nth_error_In. exact row'_i. Qed.

Lemma entry_v' : nth_error ri' j0 = Some v'.
Proof. eapply nth_error_set_nth_eq; eauto. Qed.

Lemma other_rows (k : nat) : k <> i -> nth_error W' k = nth_error W k.
Proof. intros N. apply nth_error_set_nth_neq. exact N. Qed.

Lemma other_entries (j : nat) : j <> j0 -> nth_error ri' j = nth_error ri j.
Proof. intros N. apply nth_error_set_nth_neq. exact N. Qed.

Lemma rows'_length : Forall (fun r => List.length r = m) W'.
Proof.
  apply Forall_forall. intros r Hr. apply in_set_nth in Hr.
  destruct Hr as [-> | (k & N & Hk)].
  - rewrite length_set_nth. exact ri_length.
  - apply (proj1 (Forall_forall _ _) rows_length). eapply nth_error_In; eauto.
Qed.

Lemma in_W_cases (r : list R) (u : R) :
  In r W -> nth_error r j0 = Some u -> u = v \/ U u.
Proof.
  intros Hr Hu. apply In_nth_error in Hr. destruct Hr as (k & Hk).
  destruct (Nat.eq_dec k i) as [-> | N].
  - left. rewrite row_i in Hk. inversion Hk; subst r. congruence.
  - right. exists k, r. auto.
Qed.

Lemma in_W'_cases (r : list R) (u : R) :
  In r W' -> nth_error r j0 = Some u -> u = v' \/ U u.
Proof.
  intros Hr Hu. apply in_set_nth in Hr. destruct Hr as [-> | (k & N & Hk)].
  - left. rewrite entry_v' in Hu. congruence.
  - right. exists k, r. auto.
Qed.

Lemma U_in_W (u : R) : U u -> exists r, In r W /\ nth_error r j0 = Some u.
Proof.
  intros (k & r & N & Hk & Hu). exists r. split; [ eapply nth_error_In; eauto | exact Hu ].
Qed.

Lemma U_in_W' (u : R) : U u -> exists r, In r W' /\ nth_error r j0 = Some u.
Proof.
  intros (k & r & N & Hk & Hu). exists r. split; [| exact Hu ].
  eapply nth_error_In. rewrite other_rows by exact N. exact Hk.
Qed.

(** The extreme of the changed column, before and after. *)
Lemma extreme_before (le : R -> R -> Prop) (a : R) :
  column_extreme le W j0 a ->
  le a v /\ (forall u, U u -> le a u) /\ (a = v \/ U a).
Proof.
  intros [Lo (r & Hr & At)]. repeat split.
  - destruct (Lo _ ri_in) as (u & Hu & L). rewrite entry_v in Hu. congruence.
  - intros u Hu. destruct (U_in_W Hu) as (r' & Hr' & Hu').
    destruct (Lo _ Hr') as (w & Hw & L). congruence.
  - eapply in_W_cases; eauto.
Qed.

Lemma extreme_after (le : R -> R -> Prop) (a : R) :
  column_extreme le W' j0 a ->
  le a v' /\ (forall u, U u -> le a u) /\ (a = v' \/ U a).
Proof.
  intros [Lo (r & Hr & At)]. repeat split.
  - destruct (Lo _ ri'_in) as (u & Hu & L). rewrite entry_v' in Hu. congruence.
  - intros u Hu. destruct (U_in_W' Hu) as (r' & Hr' & Hu').
    destruct (Lo _ Hr') as (w & Hw & L). congruence.
  - eapply in_W'_cases; eauto.
Qed.

(** The other columns are the same before and after. *)
Lemma rows_after (j : nat) (r : list R) :
  j <> j0 -> In r W -> exists r', In r' W' /\ nth_error r' j = nth_error r j.
Proof.
  intros N Hr. apply In_nth_error in Hr. destruct Hr as (k & Hk).
  destruct (Nat.eq_dec k i) as [-> | K].
  - exists ri'. split; [ exact ri'_in |].
    rewrite row_i in Hk. inversion Hk; subst r. apply other_entries. exact N.
  - exists r. split; [| reflexivity ].
    eapply nth_error_In. rewrite other_rows by exact K. exact Hk.
Qed.

Lemma rows_before (j : nat) (r' : list R) :
  j <> j0 -> In r' W' -> exists r, In r W /\ nth_error r' j = nth_error r j.
Proof.
  intros N Hr. apply in_set_nth in Hr. destruct Hr as [-> | (k & K & Hk)].
  - exists ri. split; [ exact ri_in | apply other_entries; exact N ].
  - exists r'. split; [ eapply nth_error_In; eauto | reflexivity ].
Qed.

Lemma column_extreme_transfer (le : R -> R -> Prop) (A B : list (list R)) (j : nat) (a : R) :
  (forall r, In r A -> exists r', In r' B /\ nth_error r' j = nth_error r j) ->
  (forall r', In r' B -> exists r, In r A /\ nth_error r' j = nth_error r j) ->
  column_extreme le A j a -> column_extreme le B j a.
Proof.
  intros AB BA [Lo (r & Hr & At)]. split.
  - intros r' Hr'. destruct (BA _ Hr') as (r0 & H0 & E). rewrite E. apply Lo. exact H0.
  - destruct (AB _ Hr) as (r' & Hr' & E). exists r'. split; [ exact Hr' | congruence ].
Qed.

Lemma mins_other (j : nat) : j <> j0 -> nth_error mins' j = nth_error mins j.
Proof.
  intros N.
  pose proof (np_min_length rows_length mins_eq) as L.
  pose proof (np_min_length rows'_length mins'_eq) as L'.
  destruct (nth_error mins j) as [a |] eqn:E.
  - destruct (@nth_error_defined _ mins' j) as (b & Hb).
    { rewrite L', <- L. apply nth_error_Some. congruence. }
    rewrite Hb. f_equal.
    apply (@column_min_unique W j).
    + apply (@column_extreme_transfer Rle W' W j).
      * intros r Hr. destruct (@rows_before j r N Hr) as (r0 & H0 & E0). eauto.
      * intros r Hr. destruct (@rows_after j r N Hr) as (r0 & H0 & E0). eauto.
      * eapply np_min_column; eauto.
    + eapply np_min_column; eauto.
  - apply nth_error_None. apply nth_error_None in E. lia.
Qed.

Lemma maxs_other (j : nat) : j <> j0 -> nth_error maxs' j = nth_error maxs j.
Proof.
  intros N.
  pose proof (np_max_length rows_length maxs_eq) as L.
  pose proof (np_max_length rows'_length maxs'_eq) as L'.
  destruct (nth_error maxs j) as [a |] eqn:E.
  - destruct (@nth_error_defined _ maxs' j) as (b & Hb).
    { rewrite L', <- L. apply nth_error_Some. congruence. }
    rewrite Hb. f_equal.
    apply (@column_max_unique W j).
    + apply (@column_extreme_transfer Rge W' W j).
      * intros r Hr. destruct (@rows_before j r N Hr) as (r0 & H0 & E0). eauto.
      * intros r Hr. destruct (@rows_after j r N Hr) as (r0 & H0 & E0). eauto.
      * eapply np_max_column; eauto.
    + eapply np_max_column; eauto.
  - apply nth_error_None. apply nth_error_None in E. lia.
Qed.

Lemma ideal_other (j : nat) : j <> j0 -> nth_error ideal' j = nth_error ideal j.
Proof.
  intros N. unfold ideal_point. rewrite !nth_error_np_where.
  rewrite (mins_other N), (maxs_other N). reflexivity.
Qed.

Lemma anti_other (j : nat) : j <> j0 -> nth_error anti' j = nth_error anti j.
Proof.
  intros N. unfold anti_ideal_point. rewrite !nth_error_np_where.
  rewrite (mins_other N), (maxs_other N). reflexivity.
Qed.

(** The changed column: the entries of the four points and how they
    compare with the entries of the rows. *)
Lemma column_j0 :
  exists lo hi lo' hi',
    nth_error ideal j0 = Some hi /\ nth_error anti j0 = Some lo /\
    nth_error ideal' j0 = Some hi' /\ nth_error anti' j0 = Some lo' /\
    (0 <= hi' - v' <= hi - v /\ hi <= hi' /\
     (hi' - v' = hi - v -> hi = v /\ hi' = v')) /\
    (0 <= v - lo <= v' - lo' /\ lo <= lo' /\
     (v' - lo' = v - lo -> v = lo /\ v' = lo')) /\
    (forall u, U u -> lo <= u <= hi /\ lo' <= u <= hi').
Proof.
  destruct (@point_nth W ncriteria m mins maxs rows_length criteria_length mins_eq maxs_eq j0 j0_lt)
    as (c & lo & hi & Hc & Cmin & Cmax & Hi & Ha).
  destruct (@point_nth W' ncriteria m mins' maxs' rows'_length criteria_length mins'_eq maxs'_eq j0 j0_lt)
    as (c' & lo' & hi' & Hc' & Cmin' & Cmax' & Hi' & Ha').
  rewrite criterion_max in Hc, Hc'. inversion Hc; inversion Hc'; subst c c'.
  change (MAX =? MAX)%Z with true in *. change (MAX =? MIN)%Z with false in *.
  exists lo, hi, lo', hi'.
  destruct (extreme_before Cmin) as (B1 & B2 & B3).
  destruct (extreme_before Cmax) as (C1 & C2 & C3).
  destruct (extreme_after Cmin') as (B1' & B2' & B3').
  destruct (extreme_after Cmax') as (C1' & C2' & C3').
  repeat (split; [ assumption |]).
  split; [ apply (@improve_max U v v' improved hi hi'); assumption |].
  split; [ apply (@improve_min U v v' improved lo lo'); assumption |].
  intros u Hu.
  pose proof (B2 u Hu). pose proof (C2 u Hu). pose proof (B2' u Hu). pose proof (C2' u Hu).
  lra.
Qed.

Lemma other_entry (k : nat) (r : list R) :
  k <> i -> nth_error W k = Some r -> exists u, nth_error r j0 = Some u /\ U u.
Proof.
  intros N Hk.
  destruct (@nth_error_defined _ r j0) as (u & Hu).
  { rewrite (proj1 (Forall_forall _ _) rows_length r (nth_error_In _ _ Hk)). exact j0_lt. }
  exists u. split; [ exact Hu |]. exists k, r. auto.
Qed.

Lemma squares_length (point row : list R) :
  List.length point = m -> List.length row = m -> List.length (squares point row) = m.
Proof. intros P L. rewrite length_squares, P, L. apply Nat.min_id. Qed.

Lemma ideal_length : List.length ideal = m.
Proof. exact (@length_ideal_point W ncriteria m mins maxs rows_length criteria_length mins_eq maxs_eq). Qed.

Lemma anti_length : List.length anti = m.
Proof. exact (@length_anti_ideal_point W ncriteria m mins maxs rows_length criteria_length mins_eq maxs_eq). Qed.

Lemma ideal'_length : List.length ideal' = m.
Proof. exact (@length_ideal_point W' ncriteria m mins' maxs' rows'_length criteria_length mins'_eq maxs'_eq). Qed.

Lemma anti'_length : List.length anti' = m.
Proof. exact (@length_anti_ideal_point W' ncriteria m mins' maxs' rows'_length criteria_length mins'_eq maxs'_eq). Qed.

Lemma ri'_length : List.length ri' = m.
Proof. rewrite length_set_nth. exact ri_length. Qed.

(** The squares of the improved row, entry by entry. *)
Lemma own_ideal_squares : Forall2 Rle (squares ideal' ri') (squares ideal ri).
Proof.
  destruct column_j0 as (lo & hi & lo' & hi' & Hi & Ha & Hi' & Ha' & (Mx & _) & _).
  apply Forall2_of_nth_error.
  - rewrite !squares_length; auto using ideal_length, ideal'_length, ri_length, ri'_length.
  - intros j x y. rewrite !nth_error_squares.
    destruct (Nat.eq_dec j j0) as [-> | N].
    + rewrite entry_v', entry_v, Hi, Hi'. intros [= <-] [= <-].
      apply square_le_flip. lra.
    + rewrite (other_entries N), (ideal_other N). intros X Y.
      rewrite X in Y. inversion Y. lra.
Qed.

Lemma own_anti_squares : Forall2 Rle (squares anti ri) (squares anti' ri').
Proof.
  destruct column_j0 as (lo & hi & lo' & hi' & Hi & Ha & Hi' & Ha' & _ & (Mn & _) & _).
  apply Forall2_of_nth_error.
  - rewrite !squares_length; auto using anti_length, anti'_length, ri_length, ri'_length.
  - intros j x y. rewrite !nth_error_squares.
    destruct (Nat.eq_dec j j0) as [-> | N].
    + rewrite entry_v', entry_v, Ha, Ha'. intros [= <-] [= <-].
      apply square_le. lra.
    + rewrite (other_entries N), (anti_other N). intros X Y.
      rewrite X in Y. inversion Y. lra.
Qed.

(** The squares of another row. *)
Lemma other_ideal_squares (k : nat) (r : list R) :
  k <> i -> nth_error W k = Some r ->
  Forall2 Rle (squares ideal r) (squares ideal' r).
Proof.
  intros K Hk.
  destruct column_j0 as (lo & hi & lo' & hi' & Hi & Ha & Hi' & Ha' & (_ & Mx & _) & _ & Rg).
  destruct (other_entry K Hk) as (u & Hu & Uu). destruct (Rg u Uu) as [R1 R2].
  assert (L : List.length r = m)
    by (apply (proj1 (Forall_forall _ _) rows_length); eapply nth_error_In; eauto).
  apply Forall2_of_nth_error.
  - rewrite !squares_length; auto using ideal_length, ideal'_length.
  - intros j x y. rewrite !nth_error_squares.
    destruct (Nat.eq_dec j j0) as [-> | N].
    + rewrite Hu, Hi, Hi'. intros [= <-] [= <-].
      apply square_le_flip. lra.
    + rewrite (ideal_other N). intros X Y. rewrite X in Y. inversion Y. lra.
Qed.

Lemma other_anti_squares (k : nat) (r : list R) :
  k <> i -> nth_error W k = Some r ->
  Forall2 Rle (squares anti' r) (squares anti r).
Proof.
  intros K Hk.
  destruct column_j0 as (lo & hi & lo' & hi' & Hi & Ha & Hi' & Ha' & _ & (_ & Mn & _) & Rg).
  destruct (other_entry K Hk) as (u & Hu & Uu). destruct (Rg u Uu) as [R1 R2].
  assert (L : List.length r = m)
    by (apply (proj1 (Forall_forall _ _) rows_length); eapply nth_error_In; eauto).
  apply Forall2_of_nth_error.
  - rewrite !squares_length; auto using anti_length, anti'_length.
  - intros j x y. rewrite !nth_error_squares.
    destruct (Nat.eq_dec j j0) as [-> | N].
    + rewrite Hu, Ha, Ha'. intros [= <-] [= <-].
      apply square_le. lra.
    + rewrite (anti_other N). intros X Y. rewrite X in Y. inversion Y. lra.
Qed.

(** The distances of the improved row: nearer to the ideal point, farther
    from the anti-ideal point. *)
Lemma own_better : distance ideal' ri' <= distance ideal ri.
Proof. apply distance_le. exact own_ideal_squares. Qed.

Lemma own_worst : distance anti ri <= distance anti' ri'.
Proof. apply distance_le. exact own_anti_squares. Qed.

(** The distances of another row: the other way round. *)
Lemma other_better (k : nat) (r : list R) :
  k <> i -> nth_error W k = Some r -> distance ideal r <= distance ideal' r.
Proof. intros K Hk. apply distance_le. eapply other_ideal_squares; eauto. Qed.

Lemma other_worst (k : nat) (r : list R) :
  k <> i -> nth_error W k = Some r -> distance anti' r <= distance anti r.
Proof. intros K Hk. apply distance_le. eapply other_anti_squares; eauto. Qed.

(** When the change leaves a closeness as it was: three lemmas on the
    changed column. *)
Lemma nth_squares_eq (p q r s : list R) (j : nat) (a b c d : R) :
  squares p r = squares q s ->
  nth_error r j = Some a -> nth_error p j = Some b ->
  nth_error s j = Some c -> nth_error q j = Some d ->
  (a - b) ^ 2 = (c - d) ^ 2.
Proof.
  intros E Ha Hb Hc Hd.
  assert (X : nth_error (squares p r) j = nth_error (squares q s) j) by (rewrite E; reflexivity).
  rewrite !nth_error_squares, Ha, Hb, Hc, Hd in X. congruence.
Qed.

Lemma nth_squares_zero (p r : list R) (j : nat) (a b : R) :
  distance p r = 0 -> nth_error r j = Some a -> nth_error p j = Some b -> a = b.
Proof.
  intros Z0 Ha Hb. apply square_zero. symmetry.
  apply (proj1 (Forall_forall _ _) (@distance_zero _ _ Z0)).
  eapply nth_error_In. rewrite nth_error_squares, Ha, Hb. reflexivity.
Qed.

Lemma own_unchanged_alone (k : nat) (r : list R) :
  distance ideal' ri' = distance ideal ri ->
  distance anti' ri' = distance anti ri ->
  k <> i -> nth_error W k = Some r -> False.
Proof.
  intros Eb Ew K Hk.
  destruct column_j0 as (lo & hi & lo' & hi' & Hi & Ha & Hi' & Ha' & (Mx & _ & Sx) & (Mn & _ & Sn) & Rg).
  destruct (other_entry K Hk) as (u & Hu & Uu). destruct (Rg u Uu) as [R1 R2].
  apply distance_eq_squares in Eb; [| exact own_ideal_squares ].
  symmetry in Ew. apply distance_eq_squares in Ew; [| exact own_anti_squares ].
  pose proof (@nth_squares_eq _ _ _ _ j0 _ _ _ _ Eb entry_v' Hi' entry_v Hi) as Qb.
  pose proof (@nth_squares_eq _ _ _ _ j0 _ _ _ _ Ew entry_v Ha entry_v' Ha') as Qw.
  assert (hi' - v' = hi - v) by (apply square_eq; lra).
  assert (v' - lo' = v - lo) by (apply square_eq; lra).
  destruct Sx; [ assumption |]. destruct Sn; [ assumption |]. lra.
Qed.

Lemma bottom_no_tie (k : nat) (r : list R) :
  distance anti' ri' = 0 -> k <> i -> nth_error W k = Some r ->
  distance anti r = 0 -> False.
Proof.
  intros Z' K Hk Z0.
  destruct column_j0 as (lo & hi & lo' & hi' & Hi & Ha & Hi' & Ha' & _ & (Mn & _) & Rg).
  destruct (other_entry K Hk) as (u & Hu & Uu). destruct (Rg u Uu) as [R1 R2].
  pose proof (@nth_squares_zero _ _ j0 _ _ Z' entry_v' Ha').
  pose proof (@nth_squares_zero _ _ j0 _ _ Z0 Hu Ha).
  lra.
Qed.

Lemma top_no_tie (k : nat) (r : list R) :
  distance ideal ri = 0 -> k <> i -> nth_error W k = Some r ->
  distance ideal' r = 0 -> False.
Proof.
  intros Z0 K Hk Z'.
  destruct column_j0 as (lo & hi & lo' & hi' & Hi & Ha & Hi' & Ha' & (Mx & _) & _ & Rg).
  destruct (other_entry K Hk) as (u & Hu & Uu). destruct (Rg u Uu) as [R1 R2].
  pose proof (@nth_squares_zero _ _ j0 _ _ Z0 entry_v Hi).
  pose proof (@nth_squares_zero _ _ j0 _ _ Z' Hu Hi').
  lra.
Qed.

(** Another alternative that is at least as close as the improved one after
    the change was strictly closer before it. *)
Lemma overtaken_were_ahead (k : nat) (r : list R) :
  k <> i -> nth_error W k = Some r ->
  distance ideal ri + distance anti ri <> 0 ->
  distance ideal' ri' + distance anti' ri' <> 0 ->
  distance ideal r + distance anti r <> 0 ->
  distance ideal' r + distance anti' r <> 0 ->
  closeness_value ideal' anti' ri' <= closeness_value ideal' anti' r ->
  closeness_value ideal anti ri < closeness_value ideal anti r.
Proof.
  intros K Hk N1 N1' N2 N2'. unfold closeness_value.
  pose proof own_better as OB. pose proof own_worst as OW.
  pose proof (other_better K Hk) as TB. pose proof (other_worst K Hk) as TW.
  pose proof (distance_nonneg ideal ri). pose proof (distance_nonneg anti ri).
  pose proof (distance_nonneg ideal' ri'). pose proof (distance_nonneg anti' ri').
  pose proof (distance_nonneg ideal r). pose proof (distance_nonneg anti r).
  pose proof (distance_nonneg ideal' r). pose proof (distance_nonneg anti' r).
  set (db := distance ideal ri) in *. set (dw := distance anti ri) in *.
  set (db' := distance ideal' ri') in *. set (dw' := distance anti' ri') in *.
  set (eb := distance ideal r) in *. set (ew := distance anti r) in *.
  set (eb' := distance ideal' r) in *. set (ew' := distance anti' r) in *.
  intros T.
  assert (Own : dw / (db + dw) <= dw' / (db' + dw')) by (apply ratio_le; lra).
  assert (Oth : ew' / (eb' + ew') <= ew / (eb + ew)) by (apply ratio_le; lra).
  destruct (Rlt_dec (dw / (db + dw)) (ew / (eb + ew))) as [L | L]; [ exact L |].
  exfalso.
  assert (E1 : dw / (db + dw) = dw' / (db' + dw')) by lra.
  assert (E2 : dw / (db + dw) = ew / (eb + ew)) by lra.
  assert (E3 : dw' / (db' + dw') = ew' / (eb' + ew')) by lra.
  destruct (@ratio_eq_cases db dw db' dw') as [[A B] | [[A B] | [A B]]]; try lra.
  - eapply own_unchanged_alone; eauto.
  - apply (@bottom_no_tie k r); auto. change (ew = 0).
    apply div_eq_cross in E2; try lra.
    rewrite A in E2. assert (X : ew * db = 0) by lra.
    apply Rmult_integral in X. destruct X; lra.
  - apply (@top_no_tie k r); auto. change (eb' = 0).
    apply div_eq_cross in E3; try lra.
    rewrite B in E3. assert (X : eb' * dw' = 0) by lra.
    apply Rmult_integral in X. destruct X; lra.
Qed.

(** The ranks of the improved alternative. *)

Variable rankdata : list float64 -> bool -> list Z.
Hypothesis contract : Rank.descending_ranks rankdata.
Hypothesis criteria_valid : Forall (fun c => c = MIN \/ c = MAX) ncriteria.

Lemma degenerate_before :
  distance ideal ri + distance anti ri = 0 ->
  forall r, In r W -> distance ideal r = 0 /\ distance anti r = 0.
Proof.
  intros D.
  exact (@degenerate_all W ncriteria m mins maxs rows_length criteria_length
           mins_eq maxs_eq criteria_valid ri ri_in D).
Qed.

Lemma degenerate_after :
  distance ideal' ri' + distance anti' ri' = 0 ->
  forall r, In r W' -> distance ideal' r = 0 /\ distance anti' r = 0.
Proof.
  intros D.
  exact (@degenerate_all W' ncriteria m mins' maxs' rows'_length criteria_length
           mins'_eq maxs'_eq criteria_valid ri' ri'_in D).
Qed.

Lemma regular_before :
  distance ideal ri + distance anti ri <> 0 ->
  forall r, In r W -> distance ideal r + distance anti r <> 0.
Proof.
  intros N r Hr D. apply N.
  destruct (@degenerate_all W ncriteria m mins maxs rows_length criteria_length
              mins_eq maxs_eq criteria_valid r Hr D ri ri_in) as [B Wz].
  rewrite B, Wz. ring.
Qed.

Lemma regular_after :
  distance ideal' ri' + distance anti' ri' <> 0 ->
  forall r, In r W' -> distance ideal' r + distance anti' r <> 0.
Proof.
  intros N r Hr D. apply N.
  destruct (@degenerate_all W' ncriteria m mins' maxs' rows'_length criteria_length
              mins'_eq maxs'_eq criteria_valid r Hr D ri' ri'_in) as [B Wz].
  rewrite B, Wz. ring.
Qed.

Lemma other_in_after (k : nat) (r : list R) :
  k <> i -> nth_error W k = Some r -> In r W'.
Proof.
  intros K Hk. eapply nth_error_In. rewrite other_rows by exact K. exact Hk.
Qed.

Lemma improve_rank :
  exists r r',
    nth_error (rankdata (map (closeness_row ideal anti) W) true) i = Some r /\
    nth_error (rankdata (map (closeness_row ideal' anti') W') true) i = Some r' /\
    (r' <= r)%Z.
Proof.
  pose proof own_better as OB. pose proof own_worst as OW.
  pose proof (distance_nonneg ideal ri) as P1. pose proof (distance_nonneg anti ri) as P2.
  pose proof (distance_nonneg ideal' ri') as P3. pose proof (distance_nonneg anti' ri') as P4.
  assert (LW : List.length W' = List.length W) by apply length_set_nth.
  destruct (@rank_exists rankdata contract (map (closeness_row ideal anti) W) i
              (closeness_row ideal anti ri)) as (r & Hr & Rr).
  { rewrite nth_error_map, row_i. reflexivity. }
  destruct (@rank_exists rankdata contract (map (closeness_row ideal' anti') W') i
              (closeness_row ideal' anti' ri')) as (r' & Hr' & Rr').
  { rewrite nth_error_map, row'_i. reflexivity. }
  rewrite length_map in Rr, Rr'.
  destruct (Req_dec_T (distance ideal ri + distance anti ri) 0) as [D | D];
    destruct (Req_dec_T (distance ideal' ri' + distance anti' ri') 0) as [D' | D'].
  - (* degenerate before and after: the same list of NaN *)
    exists r, r. split; [ exact Hr | split; [| lia ] ].
    rewrite (closeness_rows_nan _ _ _ (degenerate_after D')), LW.
    rewrite <- (closeness_rows_nan _ _ _ (degenerate_before D)). exact Hr.
  - (* degenerate before: afterwards the improved alternative is alone on top *)
    exists r, r'. split; [ exact Hr | split; [ exact Hr' |] ].
    rewrite (closeness_rows_numbers _ _ _ (regular_after D')) in Hr'.
    destruct contract as (_ & _ & Bounds).
    destruct (Bounds (map (closeness_value ideal' anti') W') i
                (closeness_value ideal' anti' ri') r') as [_ B'];
      [ rewrite nth_error_map, row'_i; reflexivity | exact Hr' |].
    assert (C : (Rank.count (Rank.Rleb (closeness_value ideal' anti' ri'))
                   (map (closeness_value ideal' anti') W') <= 1)%nat).
    { apply Nat.le_trans
        with (S (Rank.count (fun _ : R => false) (map (closeness_value ideal' anti') W')));
        [| rewrite count_false; lia ].
      apply (@count_le_succ _ _ _ _ _ _ i); [ reflexivity |].
      intros k y y' K Hy _ Le. exfalso.
      apply nth_error_map_inv in Hy. destruct Hy as (rk & Hk & ->).
      rewrite other_rows in Hk by exact K.
      apply Rleb_true in Le.
      destruct (degenerate_before D ri ri_in) as [B0 _].
      destruct (degenerate_before D rk (nth_error_In _ _ Hk)) as [_ W0].
      pose proof (other_worst K Hk) as TW.
      pose proof (distance_nonneg anti' rk).
      rewrite (closeness_value_zero ideal' anti' rk) in Le by lra.
      rewrite (closeness_value_one ideal' anti' ri') in Le by lra.
      lra. }
    lia.
  - (* degenerate after: before, the improved alternative was alone at the bottom *)
    exists r, r'. split; [ exact Hr | split; [ exact Hr' |] ].
    rewrite (closeness_rows_numbers _ _ _ (regular_before D)) in Hr.
    destruct contract as (_ & _ & Bounds).
    destruct (Bounds (map (closeness_value ideal anti) W) i
                (closeness_value ideal anti ri) r) as [B _];
      [ rewrite nth_error_map, row_i; reflexivity | exact Hr |].
    assert (C : (List.length W <= S (Rank.count (Rank.Rltb (closeness_value ideal anti ri))
                                       (map (closeness_value ideal anti) W)))%nat).
    { rewrite <- (length_map (closeness_value ideal anti) W).
      rewrite <- (count_true (map (closeness_value ideal anti) W)).
      apply (@count_le_succ _ _ _ _ _ _ i); [ reflexivity |].
      intros k y y' K Hy Hy' _. rewrite Hy in Hy'. inversion Hy'; subst y'.
      apply nth_error_map_inv in Hy. destruct Hy as (rk & Hk & ->).
      apply Rltb_true.
      destruct (degenerate_after D' ri' ri'_in) as [_ W0].
      destruct (degenerate_after D' rk (other_in_after K Hk)) as [B0 _].
      pose proof (other_better K Hk) as TB.
      pose proof (distance_nonneg ideal rk).
      pose proof (regular_before D rk (nth_error_In _ _ Hk)).
      rewrite (closeness_value_zero ideal anti ri) by lra.
      rewrite (closeness_value_one ideal anti rk) by lra.
      lra. }
    lia.
  - (* regular before and after *)
    rewrite (closeness_rows_numbers _ _ _ (regular_before D)) in *.
    rewrite (closeness_rows_numbers _ _ _ (regular_after D')) in *.
    destruct (@rank_not_worse rankdata contract
                (map (closeness_value ideal anti) W)
                (map (closeness_value ideal' anti') W') i
                (closeness_value ideal anti ri) (closeness_value ideal' anti' ri'))
      as (s & s' & Hs & Hs' & L).
    + rewrite !length_map. lia.
    + rewrite nth_error_map, row_i. reflexivity.
    + rewrite nth_error_map, row'_i. reflexivity.
    + intros k y y' K Hy Hy' Le.
      apply nth_error_map_inv in Hy. destruct Hy as (rk & Hk & ->).
      apply nth_error_map_inv in Hy'. destruct Hy' as (rk' & Hk' & ->).
      rewrite other_rows in Hk' by exact K. rewrite Hk in Hk'. inversion Hk'; subst rk'.
      apply (@overtaken_were_ahead k rk); auto.
      * apply regular_before; [ exact D | eapply nth_error_In; eauto ].
      * apply regular_after; [ exact D' | eapply other_in_after; eauto ].
    + exists s, s'. auto.
Qed.

End Improve.

(** *** The ranking of [topsis] *)

Section Monotone.

Import Util Closeness.

Local Open Scope R_scope.

Variable rankdata : list float64 -> bool -> list Z.

Lemma map_set_nth {A B : Type} (f : A -> B) (l : list A) (i : nat) (x : A) :
  map f (set_nth l i x) = set_nth (map f l) i (f x).
Proof.
  revert i. induction l as [| y l IH]; intros [| i]; simpl; auto.
  rewrite IH. reflexivity.
Qed.

Lemma map2_set_nth {A B C : Type} (f : A -> B -> C) (a : list A) (b : list B)
    (j : nat) (x : A) (w : B) :
  nth_error b j = Some w ->
  map2 f (set_nth a j x) b = set_nth (map2 f a b) j (f x w).
Proof.
  revert b j. induction a as [| y a IH]; intros [| z b] [| j]; simpl; auto;
    try discriminate.
  - intros [= ->]. reflexivity.
  - intros H. rewrite (IH b j H). reflexivity.
Qed.

Lemma np_multiply_set_entry (nmtx : list (list R)) (nweights : list R)
    (i j : nat) (row : list R) (x' w : R) :
  nth_error nweights j = Some w ->
  np_multiply (set_nth nmtx i (set_nth row j x')) nweights =
  set_nth (np_multiply nmtx nweights) i (set_nth (map2 Rmult row nweights) j (x' * w)).
Proof.
  intros Hw. unfold np_multiply. rewrite map_set_nth.
  rewrite (map2_set_nth Rmult row nweights j x' Hw). reflexivity.
Qed.

Lemma np_multiply_shape (nmtx : list (list R)) (nweights : list R) :
  Forall (fun row => List.length row = List.length nweights) nmtx ->
  Forall (fun row => List.length row = List.length nweights) (np_multiply nmtx nweights).
Proof.
  intros F. unfold np_multiply. apply Forall_forall. intros r Hr.
  apply in_map_iff in Hr. destruct Hr as (row & <- & Hrow).
  rewrite length_map2. rewrite (proj1 (Forall_forall _ _) F row Hrow). apply Nat.min_id.
Qed.

Lemma np_min_defined (wmtx : list (list R)) (i : nat) (row : list R) :
  nth_error wmtx i = Some row -> exists mins, np_min_axis0 wmtx = Return mins.
Proof.
  destruct wmtx as [| r rows]; [ destruct i; discriminate |]. intros _. eexists. reflexivity.
Qed.

Lemma np_max_defined (wmtx : list (list R)) (i : nat) (row : list R) :
  nth_error wmtx i = Some row -> exists maxs, np_max_axis0 wmtx = Return maxs.
Proof.
  destruct wmtx as [| r rows]; [ destruct i; discriminate |]. intros _. eexists. reflexivity.
Qed.

(** The result of [topsis], row by row. *)
Lemma topsis_rows (nmtx : list (list R)) (ncriteria : list Z) (nweights mins maxs : list R) :
  np_min_axis0 (np_multiply nmtx nweights) = Return mins ->
  np_max_axis0 (np_multiply nmtx nweights) = Return maxs ->
  topsis rankdata nmtx ncriteria nweights =
  Return (rankdata (map (closeness_row (ideal_point ncriteria mins maxs)
                                       (anti_ideal_point ncriteria mins maxs))
                        (np_multiply nmtx nweights)) true,
          map (closeness_row (ideal_point ncriteria mins maxs)
                             (anti_ideal_point ncriteria mins maxs))
              (np_multiply nmtx nweights)).
Proof.
  intros Hmin Hmax. unfold topsis, topsis_trace. rewrite Hmin, Hmax.
  cbn [bind t_closeness]. rewrite closeness_rows. reflexivity.
Qed.

(** With exact products, sums, roots and quotients: for a normalized triple
    (rows, criteria and weights of one length, criteria among [MIN] and
    [MAX], weights not negative) and a ranking utility that ranks in
    descending order, strictly increasing the entry of alternative [i] on a
    criterion [j] to maximize, all else fixed, gives alternative [i] a rank
    that is not greater than its rank before. *)
Lemma topsis_monotone (nmtx : list (list R)) (ncriteria : list Z) (nweights : list R)
    (i j : nat) (x x' : R) :
  Rank.descending_ranks rankdata ->
  same_shape nmtx ncriteria nweights ->
  Forall (fun c => c = MIN \/ c = MAX) ncriteria ->
  Forall (fun w => 0 <= w) nweights ->
  nth_error ncriteria j = Some MAX ->
  entry nmtx i j = Some x ->
  x < x' ->
  exists rank closeness rank' closeness' r r',
    topsis rankdata nmtx ncriteria nweights = Return (rank, closeness) /\
    topsis rankdata (set_entry nmtx i j x') ncriteria nweights = Return (rank', closeness') /\
    nth_error rank i = Some r /\
    nth_error rank' i = Some r' /\
    (r' <= r)%Z.
Proof.
  intros contract [Hrows Hnc] Hvalid Hpos Hmax Hentry Hlt.
  unfold entry in Hentry. unfold set_entry.
  destruct (nth_error nmtx i) as [row |] eqn:Hrow; [| discriminate ].
  assert (Lrow : List.length row = List.length nweights)
    by (apply (proj1 (Forall_forall _ _) Hrows); eapply nth_error_In; eauto).
  destruct (@nth_error_defined _ nweights j) as (w & Hw).
  { rewrite <- Lrow. apply nth_error_Some. congruence. }
  assert (Pw : 0 <= w)
    by (apply (proj1 (Forall_forall _ _) Hpos); eapply nth_error_In; eauto).
  set (W := np_multiply nmtx nweights).
  set (ri := map2 Rmult row nweights).
  assert (Hri : nth_error W i = Some ri).
  { unfold W, np_multiply. rewrite nth_error_map, Hrow. reflexivity. }
  assert (Hv : nth_error ri j = Some (x * w)).
  { unfold ri. rewrite nth_error_map2, Hentry, Hw. reflexivity. }
  destruct (np_min_defined _ _ Hri) as (mins & Hmins).
  destruct (np_max_defined _ _ Hri) as (maxs & Hmaxs).
  rewrite (topsis_rows nmtx ncriteria nweights Hmins Hmaxs).
  assert (HW' : np_multiply (set_nth nmtx i (set_nth row j x')) nweights =
                set_nth W i (set_nth ri j (x' * w)))
    by (apply np_multiply_set_entry; exact Hw).
  destruct (Req_dec_T (x * w) (x' * w)) as [Same | Diff].
  - (* the weight is zero: the weighted matrix is the same *)
    rewrite <- Same in HW'.
    rewrite (set_nth_same ri j Hv), (set_nth_same W i Hri) in HW'.
    assert (Hmins' := Hmins). assert (Hmaxs' := Hmaxs).
    rewrite <- HW' in Hmins', Hmaxs'.
    rewrite (topsis_rows _ ncriteria nweights Hmins' Hmaxs'). rewrite HW'.
    destruct (@rank_exists rankdata contract
                (map (closeness_row (ideal_point ncriteria mins maxs)
                                    (anti_ideal_point ncriteria mins maxs)) W) i
                (closeness_row (ideal_point ncriteria mins maxs)
                               (anti_ideal_point ncriteria mins maxs) ri))
      as (r & Hr & _).
    { rewrite nth_error_map, Hri. reflexivity. }
    do 4 eexists. exists r, r.
    split; [ reflexivity | split; [ reflexivity | split; [ exact Hr | split; [ exact Hr | lia ] ] ] ].
  - assert (Hvv : x * w < x' * w) by nra.
    assert (Hri' : nth_error (set_nth W i (set_nth ri j (x' * w))) i
                   = Some (set_nth ri j (x' * w)))
      by (eapply nth_error_set_nth_eq; eauto).
    destruct (np_min_defined _ _ Hri') as (mins' & Hmins').
    destruct (np_max_defined _ _ Hri') as (maxs' & Hmaxs').
    assert (Hmins2 := Hmins'). assert (Hmaxs2 := Hmaxs').
    rewrite <- HW' in Hmins2, Hmaxs2.
    rewrite (topsis_rows _ ncriteria nweights Hmins2 Hmaxs2). rewrite HW'.
    destruct (@improve_rank W ncriteria (List.length nweights) i j ri (x * w) (x' * w)
                mins maxs mins' maxs'
                (@np_multiply_shape nmtx nweights Hrows) Hnc Hmax Hri Hv Hvv
                Hmins Hmaxs Hmins' Hmaxs' rankdata contract Hvalid)
      as (r & r' & Hr & Hr' & L).
    do 4 eexists. exists r, r'.
    split; [ reflexivity | split; [ reflexivity | split; [ exact Hr | split; [ exact Hr' | exact L ] ] ] ].
Qed.

Lemma rounding_error_small : 0 <= rounding_error <= 1.
Proof.
  unfold rounding_error.
  let v := eval vm_compute in (2 ^ 50)%Z in change (2 ^ 50)%Z with v.
  lra.
Qed.

(** A closeness that is a number: the quotient of the two distances. *)
Lemma closeness_row_fin (ideal anti row : list R) (c : R) :
  closeness_row ideal anti row = f_fin c ->
  0 < distance ideal row + distance anti row /\
  c = distance anti row / (distance ideal row + distance anti row) /\
  0 <= c.
Proof.
  unfold closeness_row, np_true_divide.
  pose proof (distance_nonneg ideal row) as Pb.
  pose proof (distance_nonneg anti row) as Pw.
  destruct (Req_dec_T _ 0) as [Z0 | N].
  - destruct (Req_dec_T _ 0); discriminate.
  - intros [= <-]. assert (P : 0 < distance ideal row + distance anti row) by lra.
    split; [ exact P | split; [ reflexivity |] ].
    apply Rmult_le_pos; [ exact Pw | left; apply Rinv_0_lt_compat; exact P ].
Qed.


End Monotone.

(** *** The ranking utility modelled from the specification *)

Section RankModel.

Import Closeness Rank.

Lemma count_map {A B : Type} (f : A -> B) (p : B -> bool) (l : list A) :
  count p (map f l) = count (fun x => p (f x)) l.
Proof.
  induction l as [| x l IH]; [ reflexivity |].
  cbn [map]. rewrite !count_cons, IH. reflexivity.
Qed.

Lemma count_le_implied {A : Type} (p q : A -> bool) (l : list A) :
  (forall y, p y = true -> q y = true) -> (count p l <= count q l)%nat.
Proof.
  intros I. apply count_le_pointwise; [ reflexivity |].
  intros k x y Hx Hy. rewrite Hx in Hy. inversion Hy; subst. apply I.
Qed.

(** An entry that satisfies [q] and not [p], where [p] implies [q]. *)
Lemma count_strict {A : Type} (p q : A -> bool) (l : list A) (x : A) :
  In x l -> p x = false -> q x = true ->
  (forall y, p y = true -> q y = true) ->
  (S (count p l) <= count q l)%nat.
Proof.
  intros Hx Px Qx I. induction l as [| y l IH]; [ destruct Hx |].
  rewrite !count_cons. destruct Hx as [-> | Hx].
  - rewrite Px, Qx. pose proof (count_le_implied p q l I). lia.
  - specialize (IH Hx). pose proof (I y) as Iy.
    destruct (p y); [ rewrite Iy by reflexivity | destruct (q y) ]; lia.
Qed.

Lemma float_ltb_irrefl (x : float64) : float_ltb x x = false.
Proof.
  destruct x as [| [|] | a]; try reflexivity.
  simpl. unfold Rltb. destruct (Rlt_dec a a) as [L | _]; [| reflexivity ].
  exfalso. exact (Rlt_irrefl a L).
Qed.

Lemma rankdata_descending : descending_ranks rankdata.
Proof.
  unfold descending_ranks, rankdata. split; [| split ].
  - intros scores. apply length_map.
  - intros scores i r H. apply nth_error_map_inv in H. destruct H as (x & Hx & ->).
    pose proof (@count_strict _ (fun y => float_ltb x y) (fun _ => true) scores x
                  (nth_error_In _ _ Hx) (float_ltb_irrefl x) eq_refl (fun _ _ => eq_refl)) as C.
    rewrite count_true in C. lia.
  - intros xs i x r Hx H. apply nth_error_map_inv in H. destruct H as (c & Hc & ->).
    rewrite nth_error_map, Hx in Hc. inversion Hc; subst c; clear Hc.
    rewrite count_map. cbn [float_ltb].
    pose proof (@count_strict _ (Rltb x) (Rleb x) xs x (nth_error_In _ _ Hx)) as C.
    assert (S (count (Rltb x) xs) <= count (Rleb x) xs)%nat.
    { apply C.
      - unfold Rltb. destruct (Rlt_dec x x) as [L | _]; [| reflexivity ].
        exfalso. exact (Rlt_irrefl x L).
      - apply Rleb_true. apply Rle_refl.
      - intros y L. apply Rleb_true. apply Rltb_true in L. apply Rlt_le. exact L. }
    change (count (fun y : R => Rltb x y) xs) with (count (Rltb x) xs).
    lia.
Qed.

End RankModel.

(** ** Runs on the scenarios of the specification *)

(** A number written out is within the range of the guards. *)
Ltac in_range :=
  unfold Closeness.bounded, Closeness.moderate, Closeness.range_bound;
  let v := eval vm_compute in (2 ^ 100)%Z in change (2 ^ 100)%Z with v;
  first [ left; lra
        | right; unfold Rabs; repeat (destruct (Rcase_abs _)); lra
        | unfold Rabs; repeat (destruct (Rcase_abs _)); lra ].

Section Runs.

Import Util Closeness Stated.

Local Open Scope R_scope.

Lemma Rmin_same (a : R) : Rmin a a = a.
Proof. apply Rmin_left. lra. Defined.

Lemma Rmax_same (a : R) : Rmax a a = a.
Proof. apply Rmax_left. lra. Defined.

Ltac run_columns :=
  cbn [distances nth_error map]; unfold distance, squares;
  cbn [np_sum squares fold_right map map2 ideal_point anti_ideal_point np_where
       np_equal np_multiply fold_left];
  change (MAX =? MAX)%Z with true; change (MAX =? MIN)%Z with false;
  change (MIN =? MAX)%Z with false; change (MIN =? MIN)%Z with true;
  cbv iota.

(** Scenario 2, two identical alternatives: both distances of the first
    alternative are zero. *)
Lemma identical_rows_distances :
  exists t db dw,
    topsis_trace [[1; 1]; [1; 1]] [MAX; MAX] [1 / 2; 1 / 2] = Return t /\
    nth_error (t_d_better t) 0 = Some db /\
    nth_error (t_d_worst t) 0 = Some dw /\
    db + dw = 0.
Proof.
  eexists. eexists. eexists.
  split; [ reflexivity |]. split; [ reflexivity |]. split; [ reflexivity |].
  run_columns. rewrite !Rmin_same, !Rmax_same.
  replace ((1 * (1 / 2) - 1 * (1 / 2)) ^ 2 + ((1 * (1 / 2) - 1 * (1 / 2)) ^ 2 + 0))
    with 0 by ring.
  rewrite sqrt_0. ring.
Defined.

(** C2, as stated, fails on scenario 2: nothing is raised and the closeness
    of the first alternative is NaN, not a number. *)
Lemma degenerate_guarded_fails_on_identical_rows :
  ~ degenerate_guarded Rank.rankdata [[1; 1]; [1; 1]] [MAX; MAX] [1 / 2; 1 / 2].
Proof.
  intros G.
  destruct identical_rows_distances as (t & db & dw & E & Hb & Hw & Z0).
  pose proof (degenerate_division _ _ _ _ E Hb Hw Z0) as N.
  destruct (G t 0%nat db dw E Hb Hw Z0) as [[e R] | (rank & closeness & c & R & C)];
    rewrite (topsis_of_trace Rank.rankdata _ _ _ E) in R.
  - discriminate.
  - inversion R; subst. rewrite N in C. discriminate.
Qed.

Lemma degenerate_closeness_is_nan_witness :
  exists t db dw,
    (topsis_trace [[1; 1]; [1; 1]] [MAX; MAX] [1 / 2; 1 / 2] = Return t /\
     nth_error (t_d_better t) 0 = Some db /\
     nth_error (t_d_worst t) 0 = Some dw /\
     db + dw = 0) /\
    topsis Rank.rankdata [[1; 1]; [1; 1]] [MAX; MAX] [1 / 2; 1 / 2] =
      Return (Rank.rankdata (t_closeness t) true, t_closeness t) /\
    nth_error (t_closeness t) 0 = Some f_nan.
Proof.
  destruct identical_rows_distances as (t & db & dw & E & Hb & Hw & Z0).
  exists t, db, dw. split; [ auto |].
  exact (degenerate_closeness_is_nan Rank.rankdata _ _ _ _ E Hb Hw Z0).
Defined.

(** Two alternatives on one criterion to maximize: the distances of the
    second one are 0 and 1. *)
Lemma two_rows_distances :
  exists t db dw,
    topsis_trace [[0]; [1]] [MAX] [1] = Return t /\
    nth_error (t_d_better t) 1 = Some db /\
    nth_error (t_d_worst t) 1 = Some dw /\
    db + dw <> 0.
Proof.
  eexists. eexists. eexists.
  split; [ reflexivity |]. split; [ reflexivity |]. split; [ reflexivity |].
  run_columns.
  rewrite (Rmin_left (0 * 1) (1 * 1)) by lra.
  rewrite (Rmax_right (0 * 1) (1 * 1)) by lra.
  replace ((1 * 1 - 1 * 1) ^ 2 + 0) with 0 by ring.
  replace ((1 * 1 - 0 * 1) ^ 2 + 0) with 1 by ring.
  rewrite sqrt_0, sqrt_1. lra.
Defined.



Lemma topsis_monotone_witness :
  exists rank closeness rank' closeness' r r',
    topsis Rank.rankdata [[1; 2]; [2; 1]] [MAX; MAX] [1 / 2; 1 / 2] =
      Return (rank, closeness) /\
    topsis Rank.rankdata (set_entry [[1; 2]; [2; 1]] 0 0 3) [MAX; MAX] [1 / 2; 1 / 2] =
      Return (rank', closeness') /\
    nth_error rank 0 = Some r /\
    nth_error rank' 0 = Some r' /\
    (r' <= r)%Z.
Proof.
  apply (@topsis_monotone Rank.rankdata [[1; 2]; [2; 1]] [MAX; MAX] [1 / 2; 1 / 2]
           0%nat 0%nat 1 3).
  - exact rankdata_descending.
  - split; [ repeat constructor | reflexivity ].
  - repeat constructor; right; reflexivity.
  - repeat constructor; lra.
  - reflexivity.
  - reflexivity.
  - lra.
Defined.


End Runs.

(** *** Runs on doubles *)

Section Binary64Runs.

Import Util PrimFloat.

Local Open Scope float_scope.




(** [nearest] on doubles, where the exact numbers do not tell the whole
    story.  With side "gt" and the entries 0 and infinity, the only entry
    above the target 1 is at an infinite distance, the same as the fill
    value of the masked entry 0, and [argmin] keeps the first: the entry 0,
    which is below the target. *)
Lemma nearest_gt_infinite_tie :
  Binary64.nearest (mk_ndarray [2%nat] [0; infinity]) 1 (Some "gt"%string) =
  Return (Some 0).
Proof. reflexivity. Qed.

(** The differences of 1 and of 0.5 to the target -1e16 round to the same
    double, and the first of the two entries is returned although the other
    is nearer. *)
Lemma nearest_rounding_tie :
  Binary64.nearest (mk_ndarray [2%nat] [1; 0.5]) (-0x1.1c37937e08p+53)
                   (Some "gt"%string) = Return (Some 1) /\
  Binary64.nearest (mk_ndarray [2%nat] [1; 0.5]) (-0x1.1c37937e08p+53) None =
  Return (Some 1).
Proof. split; reflexivity. Qed.

End Binary64Runs.

(** * Further properties *)

(** ** criteriarr, on every input *)

Section CriteriarrCases.

Import Util.

Local Open Scope Z_scope.

Lemma in_insert_unique (x y : Z) (l : list Z) :
  In y (insert_unique x l) <-> y = x \/ In y l.
Proof.
  induction l as [| z l IH]; simpl.
  - intuition.
  - destruct (x <? z) eqn:L; [ simpl; intuition |].
    destruct (x =? z) eqn:E.
    + apply Z.eqb_eq in E. subst z. simpl. intuition.
    + simpl. rewrite IH. intuition.
Qed.

Lemma in_np_unique (y : Z) (a : list Z) : In y (np_unique a) <-> In y a.
Proof.
  unfold np_unique. induction a as [| x a IH]; simpl; [ tauto |].
  rewrite in_insert_unique, IH. intuition.
Qed.

Lemma increasing_insert (x : Z) (l : list Z) :
  increasing l -> increasing (insert_unique x l).
Proof.
  induction 1 as [| z l Hz Hl IH]; simpl.
  - constructor; [ intros y [] | constructor ].
  - destruct (x <? z) eqn:L.
    + apply Z.ltb_lt in L. constructor; [| constructor; assumption ].
      intros y [<- | Hy]; [ exact L | specialize (Hz y Hy); lia ].
    + destruct (x =? z) eqn:E; [ constructor; assumption |].
      apply Z.ltb_ge in L. apply Z.eqb_neq in E.
      constructor; [| exact IH ].
      intros y Hy. apply in_insert_unique in Hy. destruct Hy as [-> | Hy]; [ lia | auto ].
Qed.

Lemma increasing_np_unique (a : list Z) : increasing (np_unique a).
Proof.
  unfold np_unique. induction a as [| x a IH]; simpl;
    [ constructor | apply increasing_insert; exact IH ].
Qed.

Lemma increasing_filter (p : Z -> bool) (l : list Z) :
  increasing l -> increasing (filter p l).
Proof.
  induction 1 as [| z l Hz Hl IH]; simpl; [ constructor |].
  destruct (p z); [| exact IH ].
  constructor; [| exact IH ].
  intros y Hy. apply filter_In in Hy. apply Hz. tauto.
Qed.

(** The values found outside the two senses. *)
Lemma in_setdiff (y : Z) (criteria : list Z) :
  In y (np_setdiff1d criteria [MIN; MAX]) <-> In y criteria /\ y <> MIN /\ y <> MAX.
Proof.
  unfold np_setdiff1d, np_in1d. rewrite filter_In, in_np_unique. simpl.
  rewrite orb_false_r, negb_true_iff, orb_false_iff, !Z.eqb_neq. tauto.
Qed.

Lemma increasing_setdiff (criteria : list Z) :
  increasing (np_setdiff1d criteria [MIN; MAX]).
Proof. apply increasing_filter, increasing_np_unique. Qed.

Lemma setdiff_empty (criteria : list Z) :
  np_setdiff1d criteria [MIN; MAX] = [] <->
  Forall (fun c => c = MIN \/ c = MAX) criteria.
Proof.
  rewrite Forall_forall. split.
  - intros E c Hc.
    destruct (Z.eq_dec c MIN) as [-> | N1]; [ auto |].
    destruct (Z.eq_dec c MAX) as [-> | N2]; [ auto |].
    exfalso. assert (I : In c (np_setdiff1d criteria [MIN; MAX]))
      by (apply in_setdiff; auto).
    rewrite E in I. exact I.
  - intros F. destruct (np_setdiff1d criteria [MIN; MAX]) as [| y l] eqn:E; [ reflexivity |].
    exfalso. assert (I : In y (np_setdiff1d criteria [MIN; MAX])) by (rewrite E; left; reflexivity).
    apply in_setdiff in I. destruct I as (Hy & N1 & N2).
    destruct (F y Hy); contradiction.
Qed.

Lemma setdiff_single (criteria : list Z) (x : Z) :
  np_setdiff1d criteria [MIN; MAX] = [x] <->
  In x criteria /\ x <> MIN /\ x <> MAX /\
  Forall (fun c => c = MIN \/ c = MAX \/ c = x) criteria.
Proof.
  rewrite Forall_forall. split.
  - intros E.
    assert (I : In x (np_setdiff1d criteria [MIN; MAX])) by (rewrite E; left; reflexivity).
    apply in_setdiff in I. destruct I as (Hx & N1 & N2).
    repeat (split; [ assumption |]).
    intros c Hc.
    destruct (Z.eq_dec c MIN) as [-> | M1]; [ auto |].
    destruct (Z.eq_dec c MAX) as [-> | M2]; [ auto |].
    assert (J : In c (np_setdiff1d criteria [MIN; MAX])) by (apply in_setdiff; auto).
    rewrite E in J. destruct J as [<- | []]. auto.
  - intros (Hx & N1 & N2 & F).
    pose proof (increasing_setdiff criteria) as Inc.
    assert (All : forall y, In y (np_setdiff1d criteria [MIN; MAX]) -> y = x).
    { intros y Hy. apply in_setdiff in Hy. destruct Hy as (Hy & M1 & M2).
      destruct (F y Hy) as [? | [? | ?]]; [ contradiction | contradiction | assumption ]. }
    assert (I : In x (np_setdiff1d criteria [MIN; MAX])) by (apply in_setdiff; auto).
    destruct (np_setdiff1d criteria [MIN; MAX]) as [| a [| b l]].
    + destruct I.
    + rewrite (All a (or_introl eq_refl)). reflexivity.
    + exfalso. inversion Inc as [| ? ? Ha _]; subst.
      specialize (Ha b (or_introl eq_refl)).
      rewrite (All a (or_introl eq_refl)) in Ha.
      rewrite (All b (or_intror (or_introl eq_refl))) in Ha. lia.
Qed.

Lemma setdiff_several (criteria : list Z) :
  (exists a b l, np_setdiff1d criteria [MIN; MAX] = a :: b :: l) <->
  exists x y, x <> y /\ In x criteria /\ In y criteria /\
              x <> MIN /\ x <> MAX /\ y <> MIN /\ y <> MAX.
Proof.
  split.
  - intros (a & b & l & E).
    pose proof (increasing_setdiff criteria) as Inc. rewrite E in Inc.
    inversion Inc as [| ? ? Ha _]; subst. specialize (Ha b (or_introl eq_refl)).
    assert (Ia : In a (np_setdiff1d criteria [MIN; MAX])) by (rewrite E; simpl; auto).
    assert (Ib : In b (np_setdiff1d criteria [MIN; MAX])) by (rewrite E; simpl; auto).
    apply in_setdiff in Ia, Ib. exists a, b. intuition lia.
  - intros (x & y & N & Hx & Hy & X1 & X2 & Y1 & Y2).
    assert (Ix : In x (np_setdiff1d criteria [MIN; MAX])) by (apply in_setdiff; auto).
    assert (Iy : In y (np_setdiff1d criteria [MIN; MAX])) by (apply in_setdiff; auto).
    destruct (np_setdiff1d criteria [MIN; MAX]) as [| a [| b l]].
    + destruct Ix.
    + exfalso. destruct Ix as [<- | []], Iy as [<- | []]. apply N. reflexivity.
    + eauto.
Qed.

End CriteriarrCases.

Section CriteriarrOutcomes.

Import Util.

Local Open Scope Z_scope.

Lemma criteriarr_by_outsiders (criteria : list Z) :
  criteriarr criteria =
  match np_setdiff1d criteria [MIN; MAX] with
  | [] => Return criteria
  | [x] => if x =? 0
           then Return criteria
           else Raise (ValueError criteria_msg [AInt MAX; AInt MIN; AArr criteria])
  | _ :: _ :: _ => Raise (ValueError ambiguous_truth [])
  end.
Proof.
  unfold criteriarr.
  destruct (np_setdiff1d criteria [MIN; MAX]) as [| x [| y l]]; simpl; auto.
  destruct (x =? 0); reflexivity.
Qed.

(** X1: [criteriarr] returns exactly on the arrays whose entries are all
    among -1, 0 and 1, and what it returns is its argument. *)
Theorem criteriarr_returns_iff (criteria : list Z) :
  ((exists r, criteriarr criteria = Return r) <->
   Forall (fun c => c = MIN \/ c = 0 \/ c = MAX) criteria) /\
  (forall r, criteriarr criteria = Return r -> r = criteria).
Proof.
  rewrite criteriarr_by_outsiders.
  destruct (np_setdiff1d criteria [MIN; MAX]) as [| x [| y l]] eqn:E.
  - split; [| intros r [= <-]; reflexivity ].
    split; [ intros _ | eauto ].
    apply setdiff_empty in E. eapply Forall_impl; [| exact E ].
    intros a [? | ?]; auto.
  - apply setdiff_single in E. destruct E as (Hx & N1 & N2 & F).
    destruct (x =? 0) eqn:Z0.
    + apply Z.eqb_eq in Z0. subst x.
      split; [| intros r [= <-]; reflexivity ].
      split; [ intros _ | eauto ].
      eapply Forall_impl; [| exact F ]. intros a [? | [? | ?]]; auto.
    + apply Z.eqb_neq in Z0. split; [| discriminate ].
      split; [ intros (r & H); discriminate |].
      intros G. exfalso.
      destruct (proj1 (Forall_forall _ _) G x Hx) as [? | [? | ?]]; contradiction.
  - split; [| discriminate ].
    split; [ intros (r & H); discriminate |].
    intros G. exfalso.
    destruct (proj1 (setdiff_several criteria) (ex_intro _ x (ex_intro _ y (ex_intro _ l E))))
      as (a & b & N & Ha & Hb & A1 & A2 & B1 & B2).
    destruct (proj1 (Forall_forall _ _) G a Ha) as [? | [? | ?]]; try contradiction.
    destruct (proj1 (Forall_forall _ _) G b Hb) as [? | [? | ?]]; try contradiction.
    congruence.
Qed.

(** X2: [criteriarr] raises its own error, whose message is filled with
    [MAX], [MIN] and the array, exactly when the entries outside the two
    senses are all one and the same value and that value is not 0. *)
Theorem criteriarr_own_error_iff (criteria : list Z) :
  criteriarr criteria = Raise (ValueError criteria_msg [AInt MAX; AInt MIN; AArr criteria]) <->
  exists x, x <> MIN /\ x <> 0 /\ x <> MAX /\ In x criteria /\
            Forall (fun c => c = MIN \/ c = MAX \/ c = x) criteria.
Proof.
  rewrite criteriarr_by_outsiders.
  destruct (np_setdiff1d criteria [MIN; MAX]) as [| x [| y l]] eqn:E.
  - split; [ discriminate |]. intros (x & N1 & _ & N2 & Hx & _). exfalso.
    apply setdiff_empty in E.
    destruct (proj1 (Forall_forall _ _) E x Hx); contradiction.
  - apply setdiff_single in E. destruct E as (Hx & N1 & N2 & F).
    destruct (x =? 0) eqn:Z0.
    + apply Z.eqb_eq in Z0. subst x. split; [ discriminate |].
      intros (z & M1 & M0 & M2 & Hz & _). exfalso.
      destruct (proj1 (Forall_forall _ _) F z Hz) as [? | [? | ?]]; contradiction.
    + apply Z.eqb_neq in Z0. split; [ intros _ | reflexivity ].
      exists x. auto.
  - split; [ intros H; inversion H |].
    intros (z & M1 & M0 & M2 & Hz & F). exfalso.
    destruct (proj1 (setdiff_several criteria) (ex_intro _ x (ex_intro _ y (ex_intro _ l E))))
      as (a & b & N & Ha & Hb & A1 & A2 & B1 & B2).
    destruct (proj1 (Forall_forall _ _) F a Ha) as [? | [? | ?]]; try contradiction.
    destruct (proj1 (Forall_forall _ _) F b Hb) as [? | [? | ?]]; try contradiction.
    congruence.
Qed.

(** X3: when two different values lie outside the two senses, the test of
    [criteriarr] fails inside NumPy with the error about the truth value of
    an array, and it fails that way in no other case. *)
Theorem criteriarr_ambiguous_iff (criteria : list Z) :
  criteriarr criteria = Raise (ValueError ambiguous_truth []) <->
  exists x y, x <> y /\ In x criteria /\ In y criteria /\
              x <> MIN /\ x <> MAX /\ y <> MIN /\ y <> MAX.
Proof.
  rewrite <- setdiff_several. rewrite criteriarr_by_outsiders.
  destruct (np_setdiff1d criteria [MIN; MAX]) as [| x [| y l]] eqn:E.
  - split; [ discriminate | intros (a & b & l & H); discriminate ].
  - split; [| intros (a & b & l & H); discriminate ].
    destruct (x =? 0); intros H; inversion H.
  - split; [ eauto | reflexivity ].
Qed.

End CriteriarrOutcomes.

(** ** nearest without a side *)

Section ArgminFirst.

Import Util.

Variable T : Type.
Variable ltb : T -> T -> bool.
Hypothesis ltb_irrefl : forall x, ltb x x = false.
Hypothesis ltb_trans : forall x y z, ltb x y = true -> ltb y z = true -> ltb x z = true.
Hypothesis ltb_below : forall x y b, ltb x b = true -> ltb y b = false -> ltb x y = true.

(** The scan keeps the first of the least entries: every entry before the
    index it returns is strictly greater. *)
Lemma argmin_from_first (l pre : list T) (best : T) (besti : nat) :
  nth_error pre besti = Some best ->
  (forall y, In y pre -> ltb y best = false) ->
  (forall k y, (k < besti)%nat -> nth_error pre k = Some y -> ltb best y = true) ->
  exists x,
    nth_error (pre ++ l) (argmin_from ltb best besti (List.length pre) l) = Some x /\
    forall k y, (k < argmin_from ltb best besti (List.length pre) l)%nat ->
                nth_error (pre ++ l) k = Some y -> ltb x y = true.
Proof.
  revert pre best besti.
  induction l as [| x l IH]; intros pre best besti Hb Hpre Hfirst; simpl.
  - exists best. rewrite app_nil_r. split; [ exact Hb | exact Hfirst ].
  - assert (E : pre ++ x :: l = (pre ++ [x]) ++ l) by (rewrite <- app_assoc; reflexivity).
    assert (L : S (List.length pre) = List.length (pre ++ [x]))
      by (rewrite length_app; simpl; lia).
    rewrite E, L.
    destruct (ltb x best) eqn:C.
    + apply IH.
      * rewrite nth_error_app2 by lia. rewrite Nat.sub_diag. reflexivity.
      * intros y Hy. apply in_app_or in Hy. destruct Hy as [Hy | [Hy | []]].
        -- destruct (ltb y x) eqn:D; [| reflexivity ].
           rewrite <- (Hpre y Hy). symmetry. eapply ltb_trans; eauto.
        -- subst y. apply ltb_irrefl.
      * intros k y Hk Hy. rewrite nth_error_app1 in Hy by exact Hk.
        apply (@ltb_below x y best C). apply Hpre. eapply nth_error_In; eauto.
    + assert (B : (besti < List.length pre)%nat)
        by (apply nth_error_Some; congruence).
      apply IH.
      * rewrite nth_error_app1 by exact B. exact Hb.
      * intros y Hy. apply in_app_or in Hy. destruct Hy as [Hy | [Hy | []]].
        -- auto.
        -- subst y. exact C.
      * intros k y Hk Hy. rewrite nth_error_app1 in Hy by lia. eauto.
Qed.

Lemma arg_first_first (name : string) (l : list T) (i : nat) :
  arg_first name ltb l = Return i ->
  exists x, nth_error l i = Some x /\
            forall k y, (k < i)%nat -> nth_error l k = Some y -> ltb x y = true.
Proof.
  destruct l as [| x l]; simpl; [ discriminate |]. intros [= <-].
  apply (@argmin_from_first l [x] x 0%nat).
  - reflexivity.
  - intros y [Hy | []]. subst y. apply ltb_irrefl.
  - intros k y Hk. lia.
Qed.

End ArgminFirst.

Section NearestNoSide.

Import Util Stated.

Lemma Qltb_irrefl (x : Q) : Qltb x x = false.
Proof. apply Qltb_false. lra. Qed.

Lemma Qltb_trans (x y z : Q) : Qltb x y = true -> Qltb y z = true -> Qltb x z = true.
Proof. rewrite !Qltb_true. lra. Qed.

Lemma Qltb_below (x y b : Q) : Qltb x b = true -> Qltb y b = false -> Qltb x y = true.
Proof. rewrite !Qltb_true, Qltb_false. lra. Qed.

Lemma drop_nan_nil (raveled : list elem) :
  drop_nan raveled = [] <-> forall y, ~ In (Num y) raveled.
Proof.
  split.
  - intros E y Hy. apply in_drop_nan in Hy. rewrite E in Hy. exact Hy.
  - intros H. destruct (drop_nan raveled) as [| q l] eqn:E; [ reflexivity |].
    exfalso. apply (H q). apply in_drop_nan. rewrite E. left. reflexivity.
Qed.

(** What [nearest] does without a side, on every array and target. *)
Lemma nearest_no_side (array : ndarray elem) (value : Q) :
  match nearest array value None with
  | Return (Some r) =>
      In (Num r) (data array) /\
      forall y, In (Num y) (data array) -> Qabs (r - value) <= Qabs (y - value)
  | Return None => False
  | Raise e =>
      e = ValueError "attempt to get argmin of an empty sequence" [] /\
      forall y, ~ In (Num y) (data array)
  end.
Proof.
  unfold nearest. cbn [side_allowed negb]. cbv zeta. unfold np_argmin.
  set (cleaned := drop_nan (data array)).
  pose proof (@arg_first_least Q Qltb Qltb_irrefl Qltb_trans
                "attempt to get argmin of an empty sequence"%string
                (map (fun x => Qabs (x - value)) cleaned)) as A.
  destruct (arg_first _ _ _) as [idx | e] eqn:F.
  - destruct A as (d & N & Least). cbn [bind].
    rewrite nth_error_map in N.
    destruct (nth_error cleaned idx) as [r |] eqn:Nr; [| discriminate ].
    simpl in N. injection N as <-.
    rewrite (getitem_nth _ _ Nr). cbn [bind].
    split.
    + apply in_drop_nan. eapply nth_error_In; eauto.
    + intros y Hy. apply in_drop_nan in Hy. fold cleaned in Hy.
      apply Qltb_false. apply Least. apply in_map_iff. exists y. auto.
  - cbn [bind]. split.
    + destruct (map (fun x => Qabs (x - value)) cleaned); [| discriminate ].
      simpl in F. congruence.
    + apply drop_nan_nil. fold cleaned.
      destruct cleaned; [ reflexivity | discriminate ].
Qed.



(** X5: when the array holds no number at all (it is empty or all NaN),
    [nearest] without a side raises the error of [argmin] on an empty
    sequence, whereas with side "gt" or "lt" it returns [None]. *)
Theorem nearest_nothing_to_find (array : ndarray elem) (value : Q) :
  (forall y, ~ In (Num y) (data array)) ->
  nearest array value None =
    Raise (ValueError "attempt to get argmin of an empty sequence" []) /\
  nearest array value (Some "gt"%string) = Return None /\
  nearest array value (Some "lt"%string) = Return None.
Proof.
  intros H. split; [| split ].
  - pose proof (nearest_no_side array value) as S.
    destruct (nearest array value None) as [[r |] | e].
    + exfalso. exact (H r (proj1 S)).
    + destruct S.
    + destruct S as [-> _]. reflexivity.
  - destruct (nearest_gt array value) as ([r |] & E & S); [| exact E ].
    exfalso. exact (H r (proj1 S)).
  - destruct (nearest_lt array value) as ([r |] & E & S); [| exact E ].
    exfalso. exact (H r (proj1 S)).
Qed.

Lemma nearest_nothing_to_find_witness :
  nearest (mk_ndarray [2%nat] [NaN; NaN]) 1 None =
    Raise (ValueError "attempt to get argmin of an empty sequence" []) /\
  nearest (mk_ndarray [2%nat] [NaN; NaN]) 1 (Some "gt"%string) = Return None /\
  nearest (mk_ndarray [2%nat] [NaN; NaN]) 1 (Some "lt"%string) = Return None.
Proof.
  apply nearest_nothing_to_find.
  intros y [H | [H | []]]; discriminate.
Defined.







End NearestNoSide.

(** *** The search on one side *)

Section NearestSide.

Import Util Stated.

Lemma filled_ltb_below (x y b : filled) :
  filled_ltb x b = true -> filled_ltb y b = false -> filled_ltb x y = true.
Proof.
  destruct x as [| | p], y as [| | q], b as [| | c]; simpl; auto; try discriminate.
  rewrite !Qltb_true, Qltb_false. lra.
Qed.

Lemma filled_ltb_above (x y b : filled) :
  filled_ltb b x = true -> filled_ltb b y = false -> filled_ltb y x = true.
Proof.
  destruct x as [| | p], y as [| | q], b as [| | c]; simpl; auto; try discriminate.
  rewrite !Qltb_true, Qltb_false. lra.
Qed.

Lemma filled_gtb_trans (x y z : filled) :
  filled_ltb y x = true -> filled_ltb z y = true -> filled_ltb z x = true.
Proof. intros A B. exact (filled_ltb_trans _ _ _ B A). Qed.

(** With side "gt", every entry above the target that comes before the
    returned one is strictly farther from the target. *)
Lemma nearest_gt_first (array : ndarray elem) (value r : Q) :
  nearest array value (Some "gt"%string) = Return (Some r) ->
  exists idx,
    nth_error (drop_nan (data array)) idx = Some r /\
    forall k y, (k < idx)%nat -> nth_error (drop_nan (data array)) k = Some y ->
                value < y -> r - value < y - value.
Proof.
  intros H.
  destruct (nearest_gt array value) as (res & E & S).
  rewrite E in H. injection H as ->.
  unfold nearest_on_side in S. destruct S as (_ & Lr & _).
  revert E. unfold nearest. change (side_allowed (Some "gt"%string)) with true.
  change (String.eqb "gt" "gt") with true. cbv beta iota zeta delta [negb].
  set (cleaned := drop_nan (data array)).
  destruct (forallb _ _); [ discriminate |].
  unfold ma_argmin.
  rewrite (filled_diff PInf (fun d => Qle_bool d 0) value cleaned).
  destruct (arg_first _ _ _) as [idx | e] eqn:F; [| discriminate ].
  apply (@arg_first_first filled filled_ltb filled_ltb_irrefl filled_ltb_trans
           filled_ltb_below) in F.
  destruct F as (xf & N & First). cbn [bind].
  rewrite nth_error_map in N.
  destruct (nth_error cleaned idx) as [c0 |] eqn:N0; [| discriminate ].
  rewrite (getitem_nth _ _ N0). cbn [bind]. intros [= ->].
  cbn [option_map] in N. injection N as <-.
  exists idx. split; [ exact N0 |]. intros k y Hk Hy Ly.
  specialize (First k (if Qle_bool (y - value) 0 then PInf else Val (y - value)) Hk).
  rewrite nth_error_map, Hy in First. specialize (First eq_refl).
  destruct (Qle_bool (r - value) 0) eqn:B.
  { apply Qle_bool_iff in B. lra. }
  destruct (Qle_bool (y - value) 0) eqn:B'.
  { apply Qle_bool_iff in B'. lra. }
  cbn [filled_ltb] in First. apply Qltb_true in First. exact First.
Qed.

Lemma nearest_lt_first (array : ndarray elem) (value r : Q) :
  nearest array value (Some "lt"%string) = Return (Some r) ->
  exists idx,
    nth_error (drop_nan (data array)) idx = Some r /\
    forall k y, (k < idx)%nat -> nth_error (drop_nan (data array)) k = Some y ->
                y < value -> value - r < value - y.
Proof.
  intros H.
  destruct (nearest_lt array value) as (res & E & S).
  rewrite E in H. injection H as ->.
  unfold nearest_on_side in S. destruct S as (_ & Lr & _).
  revert E. unfold nearest. change (side_allowed (Some "lt"%string)) with true.
  change (String.eqb "lt" "gt") with false. cbv beta iota zeta delta [negb].
  set (cleaned := drop_nan (data array)).
  destruct (forallb _ _); [ discriminate |].
  unfold ma_argmax.
  rewrite (filled_diff NInf (fun d => Qle_bool 0 d) value cleaned).
  destruct (arg_first _ _ _) as [idx | e] eqn:F; [| discriminate ].
  apply (@arg_first_first filled (fun a b => filled_ltb b a) filled_ltb_irrefl
           filled_gtb_trans filled_ltb_above) in F.
  destruct F as (xf & N & First). cbn [bind].
  rewrite nth_error_map in N.
  destruct (nth_error cleaned idx) as [c0 |] eqn:N0; [| discriminate ].
  rewrite (getitem_nth _ _ N0). cbn [bind]. intros [= ->].
  cbn [option_map] in N. injection N as <-.
  exists idx. split; [ exact N0 |]. intros k y Hk Hy Ly.
  specialize (First k (if Qle_bool 0 (y - value) then NInf else Val (y - value)) Hk).
  rewrite nth_error_map, Hy in First. specialize (First eq_refl).
  destruct (Qle_bool 0 (r - value)) eqn:B.
  { apply Qle_bool_iff in B. lra. }
  destruct (Qle_bool 0 (y - value)) eqn:B'.
  { apply Qle_bool_iff in B'. lra. }
  cbn [filled_ltb] in First. apply Qltb_true in First. lra.
Qed.

Lemma rounding_slack_ge_1 : 1 <= rounding_slack.
Proof. unfold rounding_slack. lra. Qed.


End NearestSide.

(** *** [iter_equal] *)

Section IterEqual.

Import Util.

Lemma isclose_refl (x : elem) : isclose x x = true.
Proof.
  destruct x as [| q]; [ reflexivity |]. cbn [isclose]. apply Qle_bool_iff.
  assert (Z0 : Qabs (q - q) == q - q) by (apply Qabs_pos; lra).
  pose proof (Qabs_nonneg q). unfold atol, rtol. lra.
Qed.

Lemma forallb_pairs {A B : Type} (f : A -> B * B) (p : B -> B -> bool) (l : list A) :
  forallb (fun q => p (fst q) (snd q)) (map f l) =
  forallb (fun x => p (fst (f x)) (snd (f x))) l.
Proof. induction l as [| x l IH]; [ reflexivity |]. simpl. rewrite IH. reflexivity. Qed.

Lemma combine_self (a : list elem) : combine a a = map (fun x => (x, x)) a.
Proof. induction a as [| x a IH]; [ reflexivity |]. simpl. rewrite IH. reflexivity. Qed.

Lemma np_allclose_self (a : list elem) : np_allclose a a = Return true.
Proof.
  unfold np_allclose, broadcast. rewrite Nat.eqb_refl. cbn [bind].
  rewrite combine_self, forallb_pairs. f_equal.
  apply forallb_forall. intros x _. apply isclose_refl.
Qed.

Lemma broadcast_raises (a b : list elem) :
  (exists e, broadcast a b = Raise e) <->
  List.length a <> List.length b /\ List.length a <> 1%nat /\ List.length b <> 1%nat.
Proof.
  unfold broadcast.
  destruct (Nat.eqb_spec (List.length a) (List.length b)) as [E | N].
  - split; [ intros (e & H); discriminate | intros (H & _); contradiction ].
  - destruct a as [| x [| x' a]], b as [| y [| y' b]]; simpl in *;
      (split; [ intros (e & H); try discriminate; repeat split; lia
              | intros (H1 & H2 & H3); try lia; eexists; reflexivity ]).
Qed.

Lemma broadcast_scalar_left (x : elem) (b : list elem) :
  broadcast [x] b = Return (map (fun y => (x, y)) b).
Proof.
  unfold broadcast. destruct (Nat.eqb_spec (List.length [x]) (List.length b)) as [E | N].
  - destruct b as [| y [| y' b]]; try discriminate. reflexivity.
  - reflexivity.
Qed.

Lemma broadcast_scalar_right (a : list elem) (y : elem) :
  broadcast a [y] = Return (map (fun x => (x, y)) a).
Proof.
  unfold broadcast. destruct (Nat.eqb_spec (List.length a) (List.length [y])) as [E | N].
  - destruct a as [| x [| x' a]]; try discriminate. reflexivity.
  - destruct a as [| x [| x' a]]; reflexivity.
Qed.

(** X9: an array is equal to itself for [iter_equal], NaN entries included,
    and so is a one-entry array to its entry taken as a scalar; a scalar is
    equal to itself exactly when it is not NaN. *)
Theorem iter_equal_self (a : list elem) (x : elem) :
  iter_equal (PyArray a) (PyArray a) = Return true /\
  iter_equal (PyArray [x]) (PyFloat x) = Return true /\
  (iter_equal (PyFloat x) (PyFloat x) = Return true <-> x <> NaN).
Proof.
  split; [| split ].
  - unfold iter_equal. cbn [is_ndarray orb as_entries]. apply np_allclose_self.
  - unfold iter_equal. cbn [is_ndarray orb as_entries]. apply np_allclose_self.
  - unfold iter_equal. cbn [is_ndarray orb]. destruct x as [| q]; simpl.
    + split; [ discriminate | intros H; contradiction H; reflexivity ].
    + split; [ discriminate |]. intros _. f_equal. apply Qeq_bool_iff. reflexivity.
Qed.



(** X12: two arrays with the same number of entries are equal for
    [iter_equal] when, position by position, both entries are NaN or both
    are numbers that differ by at most the absolute tolerance, 1e-8. *)
Theorem iter_equal_within_atol (a b : list elem) :
  Forall2 (fun x y => match x, y with
                      | NaN, NaN => True
                      | Num p, Num q => Qabs (p - q) <= atol
                      | _, _ => False
                      end) a b ->
  iter_equal (PyArray a) (PyArray b) = Return true.
Proof.
  intros F. unfold iter_equal. cbn [is_ndarray orb as_entries].
  unfold np_allclose, broadcast. rewrite (Forall2_length F), Nat.eqb_refl. cbn [bind].
  f_equal. induction F as [| x y a b H F IH]; [ reflexivity |].
  cbn [combine forallb fst snd]. rewrite IH, Bool.andb_true_r.
  destruct x as [| p], y as [| q]; try contradiction; [ reflexivity |].
  cbn [isclose]. apply Qle_bool_iff.
  assert (P : 0 <= rtol * Qabs q).
  { apply Qmult_le_0_compat; [ unfold rtol; lra | apply Qabs_nonneg ]. }
  lra.
Qed.

Lemma iter_equal_within_atol_witness :
  iter_equal (PyArray [Num 1; NaN; Num (1 # 2)])
             (PyArray [Num (1000000001 # 1000000000); NaN; Num (1 # 2)]) = Return true.
Proof.
  apply iter_equal_within_atol.
  repeat constructor; apply Qle_bool_iff; reflexivity.
Defined.

End IterEqual.

(** *** What [topsis] returns *)

Section TopsisOutcomes.

Import Util Closeness.

Local Open Scope R_scope.

Variable rankdata : list float64 -> bool -> list Z.

Lemma extremes_exist (nmtx : list (list R)) (nweights : list R) :
  nmtx <> [] ->
  exists mins maxs,
    np_min_axis0 (np_multiply nmtx nweights) = Return mins /\
    np_max_axis0 (np_multiply nmtx nweights) = Return maxs.
Proof.
  destruct nmtx as [| row rows]; [ intros N; contradiction N; reflexivity |].
  intros _. do 2 eexists. split; reflexivity.
Qed.

Lemma length_np_multiply (nmtx : list (list R)) (nweights : list R) :
  List.length (np_multiply nmtx nweights) = List.length nmtx.
Proof. unfold np_multiply. apply length_map. Qed.

(** The division of two distances gives NaN or a number between 0 and 1. *)
Lemma closeness_row_cases (ideal anti row : list R) :
  closeness_row ideal anti row = f_nan \/
  exists x, closeness_row ideal anti row = f_fin x /\ 0 <= x <= 1.
Proof.
  unfold closeness_row, np_true_divide.
  pose proof (distance_nonneg ideal row) as Pb.
  pose proof (distance_nonneg anti row) as Pw.
  set (db := distance ideal row) in *. set (dw := distance anti row) in *.
  destruct (Req_dec_T (db + dw) 0) as [Z0 | N].
  - destruct (Req_dec_T dw 0) as [_ | W]; [ left; reflexivity | exfalso; lra ].
  - right. exists (dw / (db + dw)). split; [ reflexivity |].
    assert (P : 0 < db + dw) by lra. split.
    + apply Rmult_le_pos; [ exact Pw | left; apply Rinv_0_lt_compat; exact P ].
    + apply (Rmult_le_reg_r (db + dw)); [ exact P |].
      unfold Rdiv. rewrite Rmult_assoc, Rinv_l by exact N. lra.
Qed.

Lemma degenerate_or_regular (ideal anti : list R) (wmtx : list (list R)) :
  (exists r, In r wmtx /\ distance ideal r + distance anti r = 0) \/
  (forall r, In r wmtx -> distance ideal r + distance anti r <> 0).
Proof.
  induction wmtx as [| r wmtx [(r' & I & Z0) | IH]].
  - right. intros r [].
  - left. exists r'. split; [ right; exact I | exact Z0 ].
  - destruct (Req_dec_T (distance ideal r + distance anti r) 0) as [Z0 | N].
    + left. exists r. split; [ left; reflexivity | exact Z0 ].
    + right. intros r' [<- | I]; [ exact N | apply IH; exact I ].
Qed.

Lemma map2_same (f : R -> R -> R) (r : list R) :
  (forall a, f a a = a) -> map2 f r r = r.
Proof. intros F. induction r as [| a r IH]; simpl; [| rewrite F, IH ]; reflexivity. Qed.

Lemma fold_same (f : R -> R -> R) (r : list R) (n : nat) :
  (forall a, f a a = a) -> fold_left (map2 f) (repeat r n) r = r.
Proof.
  intros F. induction n as [| n IH]; [ reflexivity |].
  simpl. rewrite (map2_same f r F). exact IH.
Qed.

Lemma distance_same (cond : list bool) (r : list R) :
  distance (np_where cond r r) r = 0.
Proof.
  apply zero_distance. apply Forall_forall. intros x Hx.
  apply In_nth_error in Hx. destruct Hx as (j & Hx).
  rewrite nth_error_squares, nth_error_np_where in Hx.
  destruct (nth_error r j) as [a |]; [| discriminate ].
  destruct (nth_error cond j) as [c |]; [| discriminate ].
  destruct c; inversion Hx; ring.
Qed.

(** X13: for a normalized triple, [topsis] raises only for a matrix with no
    alternative, and then the error of [np.min] on an empty array;
    otherwise it returns the ranking of the closeness together with the
    closeness, one value for each alternative. *)
Theorem topsis_outcome (nmtx : list (list R)) (ncriteria : list Z) (nweights : list R) :
  same_shape nmtx ncriteria nweights ->
  match nmtx with
  | [] => topsis rankdata nmtx ncriteria nweights = Raise (zero_size "minimum")
  | _ :: _ =>
      exists closeness,
        topsis rankdata nmtx ncriteria nweights =
          Return (rankdata closeness true, closeness) /\
        List.length closeness = List.length nmtx
  end.
Proof.
  intros _. destruct nmtx as [| row rows]; [ reflexivity |].
  destruct (@extremes_exist (row :: rows) nweights) as (mins & maxs & Hmin & Hmax);
    [ discriminate |].
  eexists. split; [ apply (@topsis_rows rankdata _ ncriteria _ mins maxs Hmin Hmax) |].
  rewrite length_map. apply length_np_multiply.
Qed.

(** X14: no closeness is infinite.  For a normalized triple with at least
    one alternative, every value [topsis] returns is NaN or a number
    between 0 and 1. *)
Theorem closeness_never_infinite (nmtx : list (list R)) (ncriteria : list Z)
    (nweights : list R) :
  same_shape nmtx ncriteria nweights ->
  nmtx <> [] ->
  exists closeness,
    topsis rankdata nmtx ncriteria nweights =
      Return (rankdata closeness true, closeness) /\
    Forall (fun v => v = f_nan \/ exists x, v = f_fin x /\ 0 <= x <= 1) closeness.
Proof.
  intros _ N.
  destruct (@extremes_exist nmtx nweights N) as (mins & maxs & Hmin & Hmax).
  eexists. split; [ apply (@topsis_rows rankdata _ ncriteria _ mins maxs Hmin Hmax) |].
  apply Forall_forall. intros v Hv. apply in_map_iff in Hv.
  destruct Hv as (row & <- & _). apply closeness_row_cases.
Qed.


(** X16: when all the alternatives are the same row, whatever the criteria
    and the weights, both points are that row, every distance is zero and
    the closeness of every alternative is NaN. *)
Theorem identical_alternatives_nan (row : list R) (n : nat) (ncriteria : list Z)
    (nweights : list R) :
  same_shape (repeat row (S n)) ncriteria nweights ->
  topsis rankdata (repeat row (S n)) ncriteria nweights =
    Return (rankdata (repeat f_nan (S n)) true, repeat f_nan (S n)).
Proof.
  intros _. set (wrow := map2 Rmult row nweights).
  assert (W : np_multiply (repeat row (S n)) nweights = repeat wrow (S n)).
  { unfold np_multiply. apply map_repeat. }
  assert (Hmin : np_min_axis0 (np_multiply (repeat row (S n)) nweights) = Return wrow).
  { rewrite W. cbn [repeat np_min_axis0]. rewrite (fold_same Rmin wrow n Rmin_same).
    reflexivity. }
  assert (Hmax : np_max_axis0 (np_multiply (repeat row (S n)) nweights) = Return wrow).
  { rewrite W. cbn [repeat np_max_axis0]. rewrite (fold_same Rmax wrow n Rmax_same).
    reflexivity. }
  rewrite (@topsis_rows rankdata _ ncriteria _ wrow wrow Hmin Hmax).
  rewrite W, closeness_rows_nan.
  - rewrite repeat_length. reflexivity.
  - intros r Hr. apply repeat_spec in Hr. subst r.
    split; apply distance_same.
Qed.

(** *** Dominating and dominated alternatives *)

(** A row that is on the side [sel] chooses of every row, column by column,
    is the point built with [sel]. *)
Lemma row_on_point (sel : Z -> bool) (nmtx : list (list R)) (ncriteria : list Z)
    (nweights mins maxs row : list R) :
  Forall (fun w => 0 <= w) nweights ->
  np_min_axis0 (np_multiply nmtx nweights) = Return mins ->
  np_max_axis0 (np_multiply nmtx nweights) = Return maxs ->
  In row nmtx ->
  (forall other j cj a b,
      In other nmtx -> nth_error ncriteria j = Some cj ->
      nth_error row j = Some a -> nth_error other j = Some b ->
      if sel cj then b <= a else a <= b) ->
  distance (np_where (map sel ncriteria) maxs mins) (map2 Rmult row nweights) = 0.
Proof.
  intros Pos Hmin Hmax I Dom.
  apply zero_distance, Forall_forall. intros x Hx.
  apply In_nth_error in Hx. destruct Hx as (j & Hx).
  rewrite nth_error_squares, nth_error_map2, nth_error_np_where, nth_error_map in Hx.
  destruct (nth_error row j) as [a |] eqn:Ha; [| discriminate ].
  destruct (nth_error nweights j) as [wj |] eqn:Hw; [| discriminate ].
  destruct (nth_error ncriteria j) as [cj |] eqn:Hc; [| discriminate ].
  cbn [option_map] in Hx.
  destruct (nth_error maxs j) as [hi |] eqn:Hhi; [| discriminate ].
  destruct (nth_error mins j) as [lo |] eqn:Hlo; [| discriminate ].
  injection Hx as <-.
  assert (Wj : 0 <= wj).
  { apply (proj1 (Forall_forall _ _) Pos). eapply nth_error_In; eauto. }
  assert (Iw : In (map2 Rmult row nweights) (np_multiply nmtx nweights)).
  { unfold np_multiply. apply (in_map (fun r => map2 Rmult r nweights)). exact I. }
  assert (Hu : nth_error (map2 Rmult row nweights) j = Some (a * wj)).
  { rewrite nth_error_map2, Ha, Hw. reflexivity. }
  pose proof (@np_min_column _ _ _ _ Hmin Hlo) as Pmin.
  pose proof (@np_max_column _ _ _ _ Hmax Hhi) as Pmax.
  unfold column_min, column_max, column_extreme in Pmin, Pmax.
  destruct Pmin as [Lo (rl & Irl & Hrl)]. destruct Pmax as [Hi (rh & Irh & Hrh)].
  destruct (Lo _ Iw) as (u1 & E1 & L1). rewrite Hu in E1. injection E1 as E1.
  destruct (Hi _ Iw) as (u2 & E2 & L2). rewrite Hu in E2. injection E2 as E2.
  subst u1 u2.
  destruct (sel cj) eqn:S.
  - unfold np_multiply in Irh. apply in_map_iff in Irh. destruct Irh as (other & <- & Io).
    rewrite nth_error_map2, Hw in Hrh.
    destruct (nth_error other j) as [b |] eqn:Hb; [| discriminate ].
    injection Hrh as Ehi.
    pose proof (Dom other j cj a b Io Hc Ha Hb) as D. rewrite S in D.
    assert (M : b * wj <= a * wj) by (apply Rmult_le_compat_r; assumption).
    assert (E : a * wj = hi) by lra. rewrite E. ring.
  - unfold np_multiply in Irl. apply in_map_iff in Irl. destruct Irl as (other & <- & Io).
    rewrite nth_error_map2, Hw in Hrl.
    destruct (nth_error other j) as [b |] eqn:Hb; [| discriminate ].
    injection Hrl as Elo.
    pose proof (Dom other j cj a b Io Hc Ha Hb) as D. rewrite S in D.
    assert (M : a * wj <= b * wj) by (apply Rmult_le_compat_r; assumption).
    assert (E : a * wj = lo) by lra. rewrite E. ring.
Qed.


(** X18: for a normalized triple with every criterion [MIN] or [MAX] and no
    negative weight, an alternative that is at most as good as every
    alternative on every criterion gets the closeness 0, unless the
    closeness of every alternative is NaN. *)
Theorem dominated_alternative (nmtx : list (list R)) (ncriteria : list Z)
    (nweights : list R) (i : nat) (row : list R) :
  same_shape nmtx ncriteria nweights ->
  Forall (fun c => c = MIN \/ c = MAX) ncriteria ->
  Forall (fun w => 0 <= w) nweights ->
  nth_error nmtx i = Some row ->
  (forall other j a b,
      In other nmtx -> nth_error row j = Some a -> nth_error other j = Some b ->
      (nth_error ncriteria j = Some MAX -> a <= b) /\
      (nth_error ncriteria j = Some MIN -> b <= a)) ->
  exists closeness,
    topsis rankdata nmtx ncriteria nweights =
      Return (rankdata closeness true, closeness) /\
    (nth_error closeness i = Some (f_fin 0) \/
     closeness = repeat f_nan (List.length nmtx)).
Proof.
  intros [Rows Crit] Valid Pos Hrow Dom.
  assert (N : nmtx <> []) by (intros ->; destruct i; discriminate).
  destruct (@extremes_exist nmtx nweights N) as (mins & maxs & Hmin & Hmax).
  eexists. split; [ apply (@topsis_rows rankdata _ ncriteria _ mins maxs Hmin Hmax) |].
  set (ideal := ideal_point ncriteria mins maxs).
  set (anti := anti_ideal_point ncriteria mins maxs).
  set (wrow := map2 Rmult row nweights).
  assert (I : In row nmtx) by (eapply nth_error_In; eauto).
  assert (Iw : In wrow (np_multiply nmtx nweights)).
  { unfold np_multiply. apply (in_map (fun r => map2 Rmult r nweights)). exact I. }
  assert (W : distance anti wrow = 0).
  { apply (@row_on_point (fun c => Z.eqb c MIN) nmtx ncriteria nweights mins maxs row);
      auto.
    intros other j cj a b Io Hc Ha Hb. destruct (Dom other j a b Io Ha Hb) as [D1 D2].
    assert (V : cj = MIN \/ cj = MAX).
    { apply (proj1 (Forall_forall _ _) Valid). eapply nth_error_In; eauto. }
    destruct V as [-> | ->]; unfold MIN, MAX; simpl; auto. }
  destruct (Req_dec_T (distance ideal wrow) 0) as [B | B].
  - right. rewrite <- (length_np_multiply nmtx nweights).
    apply closeness_rows_nan. intros r2 I2.
    apply (@degenerate_all _ _ _ _ _ (@np_multiply_shape _ _ Rows) Crit Hmin Hmax Valid
                           wrow Iw); [| exact I2 ].
    fold ideal anti. lra.
  - left. rewrite nth_error_map. unfold np_multiply. rewrite nth_error_map, Hrow.
    cbn [option_map]. fold wrow. f_equal.
    rewrite closeness_row_number by (rewrite W; lra).
    f_equal. apply closeness_value_zero; assumption.
Qed.

(** *** Changes of the input that change nothing *)

(** X19: a criterion of weight zero is ignored: replacing an entry of the
    matrix in the column of such a criterion changes nothing to what
    [topsis] does. *)
Theorem zero_weight_criterion_ignored (nmtx : list (list R)) (ncriteria : list Z)
    (nweights : list R) (i j : nat) (x x' : R) :
  entry nmtx i j = Some x ->
  nth_error nweights j = Some 0 ->
  topsis rankdata (set_entry nmtx i j x') ncriteria nweights =
  topsis rankdata nmtx ncriteria nweights.
Proof.
  unfold entry, set_entry. destruct (nth_error nmtx i) as [row |] eqn:Hrow; [| discriminate ].
  intros Hx Hw.
  assert (E : np_multiply (set_nth nmtx i (set_nth row j x')) nweights =
              np_multiply nmtx nweights).
  { rewrite (@np_multiply_set_entry nmtx nweights i j row x' 0 Hw).
    replace (x' * 0) with (x * 0) by ring.
    rewrite (@set_nth_same _ (map2 Rmult row nweights) j (x * 0)).
    - apply set_nth_same. unfold np_multiply. rewrite nth_error_map, Hrow. reflexivity.
    - rewrite nth_error_map2, Hx, Hw. reflexivity. }
  unfold topsis, topsis_trace. rewrite E. reflexivity.
Qed.

Lemma np_multiply_opp (nmtx : list (list R)) (nweights : list R) :
  np_multiply (map (map Ropp) nmtx) nweights = map (map Ropp) (np_multiply nmtx nweights).
Proof.
  unfold np_multiply. rewrite !map_map. apply map_ext. intros row.
  revert nweights. induction row as [| a row IH]; intros [| w nweights]; simpl; auto.
  rewrite IH. f_equal. ring.
Qed.

Lemma map2_opp (f g : R -> R -> R) :
  (forall a b, f (- a) (- b) = - g a b) ->
  forall a b, map2 f (map Ropp a) (map Ropp b) = map Ropp (map2 g a b).
Proof.
  intros F. induction a as [| x a IH]; intros [| y b]; simpl; auto.
  rewrite F, IH. reflexivity.
Qed.

Lemma fold_opp (f g : R -> R -> R) :
  (forall a b, f (- a) (- b) = - g a b) ->
  forall rows row,
    fold_left (map2 f) (map (map Ropp) rows) (map Ropp row) =
    map Ropp (fold_left (map2 g) rows row).
Proof.
  intros F. induction rows as [| r rows IH]; intros row; simpl; [ reflexivity |].
  rewrite (map2_opp f g F), IH. reflexivity.
Qed.

Lemma np_where_opp (ncriteria : list Z) (mins maxs : list R) :
  Forall (fun c => c = MIN \/ c = MAX) ncriteria ->
  ideal_point (map Z.opp ncriteria) (map Ropp maxs) (map Ropp mins) =
    map Ropp (ideal_point ncriteria mins maxs) /\
  anti_ideal_point (map Z.opp ncriteria) (map Ropp maxs) (map Ropp mins) =
    map Ropp (anti_ideal_point ncriteria mins maxs).
Proof.
  unfold ideal_point, anti_ideal_point, np_equal.
  intros V. revert mins maxs. induction V as [| c cs Hc V IH]; intros mins maxs.
  - split; reflexivity.
  - destruct mins as [| lo mins], maxs as [| hi maxs]; try (split; reflexivity).
    destruct (IH mins maxs) as [E1 E2]. cbn [map np_where]. rewrite E1, E2.
    destruct Hc as [-> | ->]; split; reflexivity.
Qed.

Lemma distances_opp (wmtx : list (list R)) (point : list R) :
  distances (map (map Ropp) wmtx) (map Ropp point) = distances wmtx point.
Proof.
  unfold distances. rewrite map_map. apply map_ext. intros row.
  unfold distance, squares. do 2 f_equal.
  revert point. induction row as [| a row IH]; intros [| b point]; simpl; auto.
  rewrite IH. f_equal. ring.
Qed.

(** X20: minimizing is maximizing the opposite.  With every criterion [MIN]
    or [MAX], changing the sign of every entry of the matrix and turning
    every [MIN] into [MAX] and every [MAX] into [MIN] changes nothing to
    what [topsis] returns. *)
Theorem topsis_duality (nmtx : list (list R)) (ncriteria : list Z) (nweights : list R) :
  Forall (fun c => c = MIN \/ c = MAX) ncriteria ->
  topsis rankdata (map (map Ropp) nmtx) (map Z.opp ncriteria) nweights =
  topsis rankdata nmtx ncriteria nweights.
Proof.
  intros V. unfold topsis, topsis_trace. rewrite np_multiply_opp.
  destruct (np_multiply nmtx nweights) as [| row rows]; [ reflexivity |].
  cbn [map np_min_axis0 np_max_axis0 bind].
  rewrite (fold_opp Rmin Rmax) by (intros; rewrite Ropp_Rmax; reflexivity).
  rewrite (fold_opp Rmax Rmin) by (intros; rewrite Ropp_Rmin; reflexivity).
  destruct (np_where_opp (fold_left (map2 Rmin) rows row) (fold_left (map2 Rmax) rows row) V)
    as [E1 E2].
  rewrite E1, E2.
  change (map Ropp row :: map (map Ropp) rows) with (map (map Ropp) (row :: rows)).
  rewrite !distances_opp. reflexivity.
Qed.

End TopsisOutcomes.

(** *** Runs of the further properties of [topsis] *)

Section FurtherRuns.

Import Util Closeness.

Local Open Scope R_scope.

Lemma topsis_outcome_witness :
  exists closeness,
    topsis Rank.rankdata [[1; 2]; [3; 4]] [MAX; MIN] [1; 1] =
      Return (Rank.rankdata closeness true, closeness) /\
    List.length closeness = 2%nat.
Proof.
  apply (@topsis_outcome Rank.rankdata [[1; 2]; [3; 4]] [MAX; MIN] [1; 1]).
  split; [ repeat constructor | reflexivity ].
Defined.

Lemma closeness_never_infinite_witness :
  exists closeness,
    topsis Rank.rankdata [[1; 2]; [3; 4]] [MAX; MIN] [1; 1] =
      Return (Rank.rankdata closeness true, closeness) /\
    Forall (fun v => v = f_nan \/ exists x, v = f_fin x /\ 0 <= x <= 1) closeness.
Proof.
  apply (@closeness_never_infinite Rank.rankdata [[1; 2]; [3; 4]] [MAX; MIN] [1; 1]).
  - split; [ repeat constructor | reflexivity ].
  - discriminate.
Defined.


Lemma identical_alternatives_nan_witness :
  topsis Rank.rankdata (repeat [1; 2] 3) [MAX; MIN] [1; 1] =
    Return (Rank.rankdata (repeat f_nan 3) true, repeat f_nan 3).
Proof.
  apply (@identical_alternatives_nan Rank.rankdata [1; 2] 2 [MAX; MIN] [1; 1]).
  split; [ repeat constructor | reflexivity ].
Defined.


Lemma dominated_alternative_witness :
  exists closeness,
    topsis Rank.rankdata [[3; 1]; [1; 2]] [MAX; MIN] [1; 1] =
      Return (Rank.rankdata closeness true, closeness) /\
    (nth_error closeness 1 = Some (f_fin 0) \/ closeness = repeat f_nan 2).
Proof.
  apply (@dominated_alternative Rank.rankdata [[3; 1]; [1; 2]] [MAX; MIN] [1; 1]
           1%nat [1; 2]).
  - split; [ repeat constructor | reflexivity ].
  - constructor; [ right; reflexivity | constructor; [ left; reflexivity | constructor ] ].
  - repeat constructor; lra.
  - reflexivity.
  - intros other j a b [<- | [<- | []]]; destruct j as [| [| [| j]]]; simpl;
      intros [= <-] [= <-]; split; intros; try discriminate; lra.
Defined.

Lemma zero_weight_criterion_ignored_witness :
  topsis Rank.rankdata (set_entry [[3; 1]; [1; 2]] 0 1 7) [MAX; MIN] [1; 0] =
  topsis Rank.rankdata [[3; 1]; [1; 2]] [MAX; MIN] [1; 0].
Proof.
  apply (@zero_weight_criterion_ignored Rank.rankdata [[3; 1]; [1; 2]] [MAX; MIN] [1; 0]
           0%nat 1%nat 1 7); reflexivity.
Defined.

Lemma topsis_duality_witness :
  topsis Rank.rankdata (map (map Ropp) [[3; 1]; [1; 2]]) (map Z.opp [MAX; MIN]) [1; 1] =
  topsis Rank.rankdata [[3; 1]; [1; 2]] [MAX; MIN] [1; 1].
Proof.
  apply (@topsis_duality Rank.rankdata [[3; 1]; [1; 2]] [MAX; MIN] [1; 1]).
  constructor; [ right; reflexivity | constructor; [ left; reflexivity | constructor ] ].
Defined.

End FurtherRuns.

(** *** [is_mtx] on a list of rows *)

Section IsMtxRows.

Import Util.

(** When [np.asarray] makes a 2-D array of a list of rows. *)
Lemma rows_2d (rows : list (list Z)) (a b : nat) :
  (exists arr, asarray_rows rows = Return arr /\ shape arr = [a; b]) <->
  rows <> [] /\ List.length rows = a /\ Forall (fun r => List.length r = b) rows.
Proof.
  destruct rows as [| r rs].
  - split.
    + intros (arr & E & S). inversion E; subst arr. discriminate.
    + intros (N & _). contradiction N. reflexivity.
  - unfold asarray_rows.
    destruct (forallb (fun r' => Nat.eqb (List.length r') (List.length r)) rs) eqn:F.
    + split.
      * intros (arr & E & S). inversion E; subst arr. cbn [shape] in S.
        injection S as <- <-.
        split; [ discriminate | split; [ reflexivity |] ].
        constructor; [ reflexivity |]. apply Forall_forall. intros r' Hr'.
        apply Nat.eqb_eq. exact (proj1 (forallb_forall _ _) F r' Hr').
      * intros (_ & La & Fb). eexists. split; [ reflexivity |]. cbn [shape].
        inversion Fb; subst. reflexivity.
    + split.
      * intros (arr & E & S). inversion E; subst arr. discriminate.
      * intros (_ & La & Fb). exfalso. inversion Fb as [| r0 rs0 Hr Frs]; subst.
        assert (T : forallb (fun r' => Nat.eqb (List.length r') (List.length r)) rs = true).
        { apply forallb_forall. intros r' Hr'. apply Nat.eqb_eq.
          exact (proj1 (Forall_forall _ _) Frs r' Hr'). }
        congruence.
Qed.

(** X22: a list of lists of integers is a matrix for [is_mtx] exactly when
    it has at least one row and all its rows have one length (the empty
    list is not a matrix, a list of empty rows is); with an expected shape
    [(a, b)], exactly when it has [a] rows, at least one, of length [b]
    each. *)
Theorem is_mtx_rows (rows : list (list Z)) (a b : nat) :
  (is_mtx asarray_rows rows None = true <->
   rows <> [] /\ exists n, Forall (fun r => List.length r = n) rows) /\
  (is_mtx asarray_rows rows (Some [a; b]) = true <->
   rows <> [] /\ List.length rows = a /\ Forall (fun r => List.length r = b) rows).
Proof.
  split.
  - rewrite is_mtx_true. split.
    + intros (arr & a' & b' & E & S & _).
      destruct (proj1 (rows_2d rows a' b')) as (N & _ & F); [ eauto |].
      split; [ exact N | exists b'; exact F ].
    + intros (N & n & F).
      destruct (proj2 (rows_2d rows (List.length rows) n)) as (arr & E & S); [ auto |].
      exists arr, (List.length rows), n. auto.
  - rewrite is_mtx_true. split.
    + intros (arr & a' & b' & E & S & [T | Eq]); [ discriminate |].
      injection Eq as -> ->. apply rows_2d. eauto.
    + intros H. apply rows_2d in H. destruct H as (arr & E & S).
      exists arr, a, b. auto.
Qed.

End IsMtxRows.
